(** * Paced Kafka order pipeline: producer, invalid producer and tracker

    A shallow embedding of [producer.py], [producer_invalid.py],
    [tracker.py] and [scripts/reset_project.py].  The broker client, the
    wall clock, the random source, the JSON codec, the subprocesses and the
    file system are the environment: every call into them is answered by
    an oracle indexed by the number of calls made so far, so a run of the
    program is a function of its arguments and of those oracles.

    Python [int] is [Z]; Python [float] is modelled by exact rationals [Q]
    (no rounding, no NaN or infinities); [dict] with string keys is a
    [gmap string _]. *)

From Stdlib Require Import ZArith QArith Qround Qabs Lqa Lia List Bool Ascii String.
From stdpp Require Import base gmap strings pretty.

Local Open Scope Z_scope.

(** ** Python values as produced by [json.loads] and consumed by [json.dumps] *)

#[warnings="-register-all"] Inductive pyval : Type :=
  | PyNone
  | PyBool (b : bool)
  | PyInt (z : Z)
  | PyFloat (q : Q)
  | PyStr (s : string)
  | PyList (l : list pyval)
  | PyDict (d : gmap string pyval).

(** [isinstance(v, int)]: [bool] is a subclass of [int] in Python, so both
    integers and booleans pass, and a boolean counts as 0 or 1 in
    arithmetic. *)
Definition isinstance_int (v : pyval) : option Z :=
  match v with
  | PyInt z => Some z
  | PyBool b => Some (if b then 1 else 0)
  | _ => None
  end.

(** [d.get(k)]: the value under [k], or [None] when the key is absent. *)
Definition dict_get (d : gmap string pyval) (k : string) : pyval :=
  match d !! k with
  | Some v => v
  | None => PyNone
  end.

(** The wall clock.  [lag n] is the time that passes before the [n]-th
    reading of the clock is taken (counting from 0). *)
Record Clock := { now : Q; ticks : nat }.

Definition time_time (lag : nat -> Q) (c : Clock) : Q * Clock :=
  let t := (now c + lag (ticks c))%Q in
  (t, {| now := t; ticks := S (ticks c) |}).

(** [max(a, b)] on floats. *)
Definition fmax (a b : Q) : Q := if Qle_bool a b then b else a.

(** ** tracker.py *)

Module Tracker.

Record Metrics := {
  processed : Z;
  errors : Z;
  latency_total_ms : Q
}.

Record Args := {
  bootstrap_servers : string;
  topic : string;
  group_id : string;
  commit_every : Z;
  report_every_seconds : Z
}.

(** What [consumer.poll(1.0)] hands back. *)
Record Message := {
  msg_error : option string;
  msg_value : option string;
  msg_offset : Z;
  msg_partition : Z
}.

Inductive Polled :=
  | Idle                      (* poll returned None *)
  | Got (m : Message)
  | Interrupted.              (* KeyboardInterrupt raised out of poll *)

Inductive Site := Cadence | Shutdown.

Inductive Line := LSubscribed | LError | LEvent | LMetrics | LStopping | LSummary.

Inductive Effect :=
  | ESubscribe (t : string)
  | ECommit (s : Site)        (* consumer.commit(asynchronous=False) *)
  | EClose
  | EPrint (l : Line).

Inductive Exn := KeyboardInterrupt | AttributeError | KafkaException.

Record State := {
  metrics : Metrics;
  started : Q;
  last_report : Q;
  clock : Clock;
  log : list Effect
}.

Definition is_commit (e : Effect) : bool :=
  match e with ECommit _ => true | _ => false end.

Definition is_commit_at (s : Site) (e : Effect) : bool :=
  match e, s with
  | ECommit Cadence, Cadence => true
  | ECommit Shutdown, Shutdown => true
  | _, _ => false
  end.

Definition commit_calls (l : list Effect) : nat := length (List.filter is_commit l).
Definition commits_at (s : Site) (l : list Effect) : nat :=
  length (List.filter (is_commit_at s) l).

Definition emit (e : Effect) (st : State) : State :=
  {| metrics := metrics st; started := started st;
     last_report := last_report st; clock := clock st;
     log := log st ++ [e] |}.

Definition set_metrics (m : Metrics) (st : State) : State :=
  {| metrics := m; started := started st;
     last_report := last_report st; clock := clock st; log := log st |}.

Definition set_last_report (t : Q) (st : State) : State :=
  {| metrics := metrics st; started := started st;
     last_report := t; clock := clock st; log := log st |}.

Inductive Flow :=
  | Pending (st : State)
  | Raised (e : Exn) (st : State).

Inductive Outcome :=
  | Running (st : State)            (* still polling when the trace ends *)
  | Exited (st : State)             (* main returned *)
  | Crashed (e : Exn) (st : State). (* an exception left main *)

(** The environment of one run: the command line, the JSON codec, the
    clock and the broker's answer to each commit. *)
Record Env := {
  args : Args;
  (** [loads v] is [json.loads(v.decode("utf-8"))]; [None] when either
      call raises. *)
  loads : string -> option pyval;
  lag : nat -> Q;
  (** Whether the [n]-th call of [consumer.commit] raises. *)
  commit_raises : nat -> bool
}.

Section Run.

Variable E : Env.

Definition read_clock (st : State) : Q * State :=
  let '(t, c) := time_time (lag E) (clock st) in
  (t, {| metrics := metrics st; started := started st;
         last_report := last_report st; clock := c; log := log st |}).
Definition count_error (st : State) : State :=
  let m := metrics st in
  emit (EPrint LError)
    (set_metrics {| processed := processed m; errors := errors m + 1;
                    latency_total_ms := latency_total_ms m |} st).

(** Lines 63-66: count the record, then add the end-to-end latency when
    [event_time_ms] is an [int] instance. *)
Definition account (order : gmap string pyval) (st : State) : State :=
  let m := metrics st in
  let st1 := set_metrics {| processed := processed m + 1; errors := errors m;
                            latency_total_ms := latency_total_ms m |} st in
  match isinstance_int (dict_get order "event_time_ms") with
  | Some etm =>
      let '(t, st2) := read_clock st1 in
      let m2 := metrics st2 in
      set_metrics {| processed := processed m2; errors := errors m2;
                     latency_total_ms :=
                       (latency_total_ms m2 + (t * 1000 - inject_Z etm))%Q |} st2
  | None => st1
  end.

(** Lines 75-76. *)
Definition cadence_due (st : State) : bool :=
  (0 <? commit_every (args E)) &&
  (processed (metrics st) mod commit_every (args E) =? 0).

Definition maybe_commit (st : State) : Flow :=
  if cadence_due st then
    let raises := commit_raises E (commit_calls (log st)) in
    let st1 := emit (ECommit Cadence) st in
    if raises then Raised KafkaException st1 else Pending st1
  else Pending st.

(** Lines 78-91. *)
Definition maybe_report (st : State) : State :=
  let '(t, st1) := read_clock st in
  if Qle_bool (inject_Z (report_every_seconds (args E))) (t - last_report st1) then
    let '(_, st2) := read_clock st1 in
    let st3 := emit (EPrint LMetrics) st2 in
    let '(t', st4) := read_clock st3 in
    set_last_report t' st4
  else st1.

(** One turn of the [while True] loop, given what [poll] returned. *)
Definition body (p : Polled) (st : State) : Flow :=
  match p with
  | Idle => Pending st
  | Interrupted => Raised KeyboardInterrupt st
  | Got m =>
      match msg_error m with
      | Some _ => Pending (count_error st)
      | None =>
          match from_option (loads E) None (msg_value m) with
          | None => Pending (count_error st)
          | Some (PyDict order) =>
              let st1 := emit (EPrint LEvent) (account order st) in
              match maybe_commit st1 with
              | Pending st2 => Pending (maybe_report st2)
              | r => r
              end
          | Some _ =>
              (* processed is incremented, then order.get raises *)
              let m0 := metrics st in
              Raised AttributeError
                (set_metrics {| processed := processed m0 + 1;
                                errors := errors m0;
                                latency_total_ms := latency_total_ms m0 |} st)
          end
      end
  end.

Fixpoint poll_loop (tr : list Polled) (st : State) : Flow :=
  match tr with
  | [] => Pending st
  | p :: tr' =>
      match body p st with
      | Pending st' => poll_loop tr' st'
      | r => r
      end
  end.

(** The [finally] block: a last commit whose failure is swallowed, close,
    summary. *)
Definition finally (st : State) : State :=
  let st1 := emit EClose (emit (ECommit Shutdown) st) in
  let '(_, st2) := read_clock st1 in
  emit (EPrint LSummary) st2.

Definition init : State :=
  let '(t, c) := time_time (lag E) {| now := 0; ticks := 0 |} in
  {| metrics := {| processed := 0; errors := 0; latency_total_ms := 0 |};
     started := t; last_report := t; clock := c;
     log := [ESubscribe (topic (args E)); EPrint LSubscribed] |}.

Definition main (tr : list Polled) : Outcome :=
  match poll_loop tr init with
  | Pending st => Running st
  | Raised KeyboardInterrupt st => Exited (finally (emit (EPrint LStopping) st))
  | Raised e st => Crashed e (finally st)
  end.

Definition flow_state (f : Flow) : State :=
  match f with Pending st => st | Raised _ st => st end.

Definition final_state (o : Outcome) : State :=
  match o with Running st => st | Exited st => st | Crashed _ st => st end.

(** What one turn of the loop does to [processed] and to the commits. *)
Inductive turn (st : State) : Flow -> Prop :=
  | turn_skip st' :
      (* nothing polled, broker error, or undecodable payload *)
      processed (metrics st') = processed (metrics st) ->
      (forall s, commits_at s (log st') = commits_at s (log st)) ->
      turn st (Pending st')
  | turn_record st' :
      processed (metrics st') = processed (metrics st) + 1 ->
      commits_at Shutdown (log st') = commits_at Shutdown (log st) ->
      commits_at Cadence (log st') =
        (commits_at Cadence (log st) + (if cadence_due st' then 1 else 0))%nat ->
      turn st (Pending st')
  | turn_commit_raised st' :
      processed (metrics st') = processed (metrics st) + 1 ->
      cadence_due st' = true ->
      commits_at Shutdown (log st') = commits_at Shutdown (log st) ->
      commits_at Cadence (log st') = S (commits_at Cadence (log st)) ->
      turn st (Raised KafkaException st')
  | turn_not_a_dict st' :
      processed (metrics st') = processed (metrics st) + 1 ->
      (forall s, commits_at s (log st') = commits_at s (log st)) ->
      turn st (Raised AttributeError st')
  | turn_interrupt :
      turn st (Raised KeyboardInterrupt st).

(** While the loop runs, the cadence commits issued so far are the whole
    multiples of [commit_every] reached by [processed], counted from the
    state the loop started in. *)
Definition on_cadence (st : State) : Prop :=
  Z.of_nat (commits_at Cadence (log st)) =
    processed (metrics st) / commit_every (args E) /\
  commits_at Shutdown (log st) = 0%nat.

(** A record that decodes to a JSON object. *)
Definition is_valid (m : Message) : bool :=
  match msg_error m with
  | Some _ => false
  | None =>
      match from_option (loads E) None (msg_value m) with
      | Some (PyDict _) => true
      | _ => false
      end
  end.

(** Poll results that let the loop go on: no interrupt, and no payload
    that decodes to something other than an object. *)
Definition harmless (p : Polled) : bool :=
  match p with
  | Idle => true
  | Interrupted => false
  | Got m =>
      match msg_error m with
      | Some _ => true
      | None =>
          match from_option (loads E) None (msg_value m) with
          | Some (PyDict _) | None => true
          | Some _ => false
          end
      end
  end.

Definition valid_records (tr : list Polled) : nat :=
  length (List.filter (fun p => match p with Got m => is_valid m | _ => false end) tr).

(** *** Vocabulary for further properties of the loop *)

Definition is_message (p : Polled) : bool :=
  match p with Got _ => true | _ => false end.

Definition polled_messages (tr : list Polled) : nat :=
  length (List.filter is_message tr).

Definition not_idle (p : Polled) : bool :=
  match p with Idle => false | _ => true end.

Definition is_object (v : pyval) : bool :=
  match v with PyDict _ => true | _ => false end.

(** A poll result that the loop counts as an error: a broker error, or a
    payload that cannot be decoded. *)
Definition is_broken (p : Polled) : bool :=
  match p with
  | Got m =>
      match msg_error m with
      | Some _ => true
      | None =>
          match from_option (loads E) None (msg_value m) with
          | None => true
          | Some _ => false
          end
      end
  | _ => false
  end.

Definition broken_records (tr : list Polled) : nat :=
  length (List.filter is_broken tr).

Definition uneventful (p : Polled) : bool :=
  match p with Idle => true | _ => is_broken p end.

(** What the [finally] block leaves at the end of the log. *)
Definition shutdown_tail : list Effect :=
  [ECommit Shutdown; EClose; EPrint LSummary].

(** The effects a turn of the loop can have. *)
Definition loop_effect (e : Effect) : bool :=
  match e with
  | EPrint LError | EPrint LEvent | EPrint LMetrics | ECommit Cadence => true
  | _ => false
  end.

End Run.

(** *** Sample runs *)

Definition quote : string := String "034"%char EmptyString.

(** The payload [{"event_time_ms": true}]. *)
Definition payload_true : string :=
  "{" ++ quote ++ "event_time_ms" ++ quote ++ ": true}".

Definition sample_loads (v : string) : option pyval :=
  if String.eqb v payload_true then
    Some (PyDict {[ "event_time_ms" := PyBool true ]})
  else if String.eqb v "{}" then Some (PyDict ∅)
  else if String.eqb v "[]" then Some (PyList [])
  else None.

Definition sample_args (every : Z) : Args :=
  {| bootstrap_servers := "localhost:9092,localhost:9094"; topic := "orders";
     group_id := "order-tracker"; commit_every := every;
     report_every_seconds := 5 |}.

(** The clock starts at 1700000000 s and then stands still. *)
Definition sample_env (every : Z) : Env :=
  {| args := sample_args every;
     loads := sample_loads;
     lag := fun n => match n with O => inject_Z 1700000000 | S _ => 0%Q end;
     commit_raises := fun _ => false |}.

Definition record_of (v : string) : Polled :=
  Got {| msg_error := None; msg_value := Some v; msg_offset := 0;
         msg_partition := 0 |}.

Definition seven_then_stop : list Polled :=
  repeat (record_of "{}") 7 ++ [Interrupted].

Definition broker_error : Polled :=
  Got {| msg_error := Some "broker transport failure"; msg_value := None;
         msg_offset := 0; msg_partition := 0 |}.

(** As [sample_env], with a broker that refuses every commit. *)
Definition refusing_env (every : Z) : Env :=
  {| args := sample_args every;
     loads := sample_loads;
     lag := fun n => match n with O => inject_Z 1700000000 | S _ => 0%Q end;
     commit_raises := fun _ => true |}.

End Tracker.

(** ** producer.py and producer_invalid.py *)

Module Producer.

Local Open Scope Q_scope.

Record Product := { item : string; category : string; base_price : Q }.

Definition PRODUCT_CATALOG : list Product := [
  {| item := "yogurt"; category := "dairy"; base_price := 320 # 100 |};
  {| item := "potatoes"; category := "vegetables"; base_price := 210 # 100 |};
  {| item := "apples"; category := "fruit"; base_price := 280 # 100 |};
  {| item := "bananas"; category := "fruit"; base_price := 310 # 100 |};
  {| item := "carrots"; category := "vegetables"; base_price := 240 # 100 |};
  {| item := "cheese"; category := "dairy"; base_price := 850 # 100 |};
  {| item := "bread"; category := "bakery"; base_price := 420 # 100 |};
  {| item := "rice"; category := "grains"; base_price := 590 # 100 |};
  {| item := "pasta"; category := "grains"; base_price := 620 # 100 |};
  {| item := "eggs"; category := "dairy"; base_price := 730 # 100 |}
].

Definition WEEKDAYS : list string :=
  ["Monday"; "Tuesday"; "Wednesday"; "Thursday"; "Friday"; "Saturday"; "Sunday"].
Definition PAYMENT_METHODS : list string := ["card"; "blik"; "cash"; "mobile_wallet"].
Definition SALES_CHANNELS : list string := ["store"; "online"; "pickup"].
Definition DISCOUNTS : list Z := [0; 0; 0; 5; 10; 15]%Z.

Definition INVALID_MODES : list string := [
  "missing_unit_price";
  "missing_quantity";
  "missing_both";
  "non_positive_unit_price";
  "non_positive_quantity"
].

(** [random.choice(l)], given the index the random source came up with. *)
Definition choice {A} (d : A) (l : list A) (i : nat) : A :=
  nth (Nat.modulo i (length l)) l d.

(** [random.uniform(a, b)] is [a + (b - a) * random()]. *)
Definition uniform (a b u : Q) : Q := a + (b - a) * u.

(** Rounding to the nearest integer, ties to even. *)
Definition round_half_even (x : Q) : Z :=
  let f := Qfloor x in
  let r := x - inject_Z f in
  match Qcompare r (1 # 2) with
  | Lt => f
  | Gt => (f + 1)%Z
  | Eq => if Z.even f then f else (f + 1)%Z
  end.

(** [round(x, 2)]. *)
Definition round2 (x : Q) : Q := inject_Z (round_half_even (x * 100)) / 100.

(** [int(x)]: truncation towards zero. *)
Definition py_int (x : Q) : Z := Z.quot (Qnum x) (Zpos (Qden x)).

(** What the [datetime] library reports about an instant. *)
Record Stamp := {
  isoformat_seconds : string;
  date_isoformat : string;
  strftime_hms : string;
  weekday : nat;
  hour : Z
}.

(** The answers of [random], [faker] and [uuid] during one call of
    [create_order]. *)
Record Draw := {
  d_days : Z; d_hours : Z; d_minutes : Z; d_seconds : Z;
  d_product : nat;
  d_quantity : Z;
  d_price : Q;
  d_discount : nat;
  d_uuid : string;
  d_name : string;
  d_payment : nat;
  d_channel : nat;
  d_city : string;
  d_mode : nat
}.

Record Metrics := {
  sent_ok : Z;
  sent_error : Z;
  ack_latency_total_ms : Q
}.

Inductive Script := Orders | InvalidOrders.

Record Args := {
  bootstrap_servers : string;
  topic : string;
  events_per_second : Q;
  max_events : Z;
  duration_seconds : Z;
  report_every_seconds : Z;
  invalid_mode : string       (* read by producer_invalid.py only *)
}.

(** One delivery report handed out by the client while it is pumped:
    the position of the message in the queue of unacknowledged messages,
    and the error, if any. *)
Record Delivery := { slot : nat; err : option string }.

Definition failed (d : Delivery) : bool :=
  match err d with Some _ => true | None => false end.

Record Env := {
  script : Script;
  args : Args;
  lag : nat -> Q;
  (** [should_stop] as seen at the [n]-th evaluation of the loop test. *)
  stop_seen : nat -> bool;
  (** Whether the [n]-th call of [producer.produce] raises [BufferError]. *)
  buffer_full : nat -> bool;
  (** The reports served by the [n]-th call of [poll] or [flush]. *)
  served : nat -> list Delivery;
  draw : nat -> Draw;
  calendar : Q -> Stamp;
  (** [json.dumps(order).encode("utf-8")] *)
  dumps : gmap string pyval -> string
}.

Record InFlight := { started_at : Q; key : string; value : string }.

Inductive Line := LError | LMetrics | LSummary.

Inductive Effect :=
  | ECreateProducer (servers : string)
  | ESubmit (k v : string)          (* produce accepted the record *)
  | EBufferError (k : string)       (* produce raised BufferError *)
  | EPoll (timeout : Q)
  | EFlush (timeout : Q)
  | EReport (k : string) (failed : bool)   (* delivery_report is invoked *)
  | ESleep (d : Q)
  | EPrint (l : Line).

Inductive Exn := ValueError (msg : string).

Record World := {
  metrics : Metrics;
  clock : Clock;
  heads : nat;
  attempts : nat;
  pumps : nat;
  inflight : list InFlight;
  log : list Effect
}.

(** The local variables of [main]. *)
Record Locals := {
  start : Q;
  last_report : Q;
  next_send_time : Q;
  produced : Z
}.

Inductive Step := Break | Again (l : Locals).

Inductive Outcome :=
  | Raised (e : Exn) (w : World)
  | Unfinished (w : World)                    (* the loop is still running *)
  | Returned (elapsed : Q) (l : Locals) (w : World).

(** Exit status of the interpreter. *)
Definition exit_status (o : Outcome) : option Z :=
  match o with
  | Raised _ _ => Some 1%Z
  | Returned _ _ _ => Some 0%Z
  | Unfinished _ => None
  end.

Definition M (A : Type) : Type := World -> A * World.

#[global] Instance M_ret : MRet M := fun A a w => (a, w).
#[global] Instance M_bind : MBind M :=
  fun A B k m w => let '(a, w') := m w in k a w'.

Definition Qlt_bool (a b : Q) : bool := negb (Qle_bool b a).

Definition with_metrics (m : Metrics) (w : World) : World :=
  {| metrics := m; clock := clock w; heads := heads w; attempts := attempts w;
     pumps := pumps w; inflight := inflight w; log := log w |}.

Definition with_clock (c : Clock) (w : World) : World :=
  {| metrics := metrics w; clock := c; heads := heads w; attempts := attempts w;
     pumps := pumps w; inflight := inflight w; log := log w |}.

Definition with_inflight (q : list InFlight) (w : World) : World :=
  {| metrics := metrics w; clock := clock w; heads := heads w;
     attempts := attempts w; pumps := pumps w; inflight := q; log := log w |}.

Definition with_log (l : list Effect) (w : World) : World :=
  {| metrics := metrics w; clock := clock w; heads := heads w;
     attempts := attempts w; pumps := pumps w; inflight := inflight w; log := l |}.

Definition count_ok (started_at t : Q) (m : Metrics) : Metrics :=
  {| sent_ok := sent_ok m + 1; sent_error := sent_error m;
     ack_latency_total_ms := ack_latency_total_ms m + (t - started_at) * 1000 |}.

Definition count_failed (m : Metrics) : Metrics :=
  {| sent_ok := sent_ok m; sent_error := sent_error m + 1;
     ack_latency_total_ms := ack_latency_total_ms m |}.

Definition set_next_send_time (t : Q) (l : Locals) : Locals :=
  {| start := start l; last_report := last_report l; next_send_time := t;
     produced := produced l |}.

Definition set_last_report (t : Q) (l : Locals) : Locals :=
  {| start := start l; last_report := t; next_send_time := next_send_time l;
     produced := produced l |}.

Definition bump_produced (l : Locals) : Locals :=
  {| start := start l; last_report := last_report l;
     next_send_time := next_send_time l; produced := produced l + 1 |}.

Definition world0 : World :=
  {| metrics := {| sent_ok := 0; sent_error := 0; ack_latency_total_ms := 0 |};
     clock := {| now := 0; ticks := 0 |};
     heads := 0; attempts := 0; pumps := 0; inflight := []; log := [] |}.

Section Run.

Variable E : Env.

Definition read_clock : M Q := fun w =>
  let '(t, c) := time_time (lag E) (clock w) in (t, with_clock c w).

Definition emit (e : Effect) : M unit := fun w =>
  (tt, with_log (log w ++ [e]) w).

(** The loop test [not should_stop]; the flag is set by the signal
    handler. *)
Definition should_stop : M bool := fun w =>
  (stop_seen E (heads w),
   {| metrics := metrics w; clock := clock w; heads := S (heads w);
      attempts := attempts w; pumps := pumps w; inflight := inflight w;
      log := log w |}).

(** [time.sleep(d)]: at least [d] seconds pass. *)
Definition sleep (d : Q) : M unit := fun w =>
  emit (ESleep d)
    (with_clock {| now := now (clock w) + d; ticks := ticks (clock w) |} w).

(** Lines 126-133 of producer.py (100-107 of producer_invalid.py). *)
Definition delivery_report (err : option string) (started_at : Q) : M unit :=
  match err with
  | Some _ => fun w =>
      emit (EPrint LError) (with_metrics (count_failed (metrics w)) w)
  | None => fun w =>
      let '(t, w1) := read_clock w in
      (tt, with_metrics (count_ok started_at t (metrics w1)) w1)
  end.

(** The client hands out delivery reports while it is pumped by [poll]
    or [flush]; a report for a slot that holds no message is void. *)
Fixpoint serve (ds : list Delivery) : M unit :=
  match ds with
  | [] => mret tt
  | d :: ds' => fun w =>
      match inflight w !! slot d with
      | Some f =>
          (emit (EReport (key f) (failed d));;
           delivery_report (err d) (started_at f);;
           serve ds')
            (with_inflight (delete (slot d) (inflight w)) w)
      | None => serve ds' w
      end
  end.

Definition next_reports : M (list Delivery) := fun w =>
  (served E (pumps w),
   {| metrics := metrics w; clock := clock w; heads := heads w;
      attempts := attempts w; pumps := S (pumps w); inflight := inflight w;
      log := log w |}).

Definition poll (timeout : Q) : M unit :=
  emit (EPoll timeout);; ds ← next_reports; serve ds.

Definition flush (timeout : Q) : M unit :=
  emit (EFlush timeout);; ds ← next_reports; serve ds.

(** [producer.produce(...)]: [false] stands for [BufferError]. *)
Definition produce (k v : string) (started : Q) : M bool := fun w =>
  let w1 :=
    {| metrics := metrics w; clock := clock w; heads := heads w;
       attempts := S (attempts w); pumps := pumps w; inflight := inflight w;
       log := log w |} in
  if buffer_full E (attempts w) then
    let '(_, w2) := emit (EBufferError k) w1 in (false, w2)
  else
    let f := {| started_at := started; key := k; value := v |} in
    let '(_, w2) := emit (ESubmit k v) (with_inflight (inflight w ++ [f]) w1) in
    (true, w2).

(** The answers of the random source for the event under construction.
    [create_order] is called once per loop turn, just before [produce], so
    the calls made so far are as many as the earlier calls of [produce]. *)
Definition next_draw : M Draw := fun w => (draw E (attempts w), w).

Definition no_product : Product :=
  {| item := ""; category := ""; base_price := 0 |}.

(** Lines 72-110 of producer.py. *)
Definition create_order : M (gmap string pyval) :=
  now_dt ← read_clock;
  d ← next_draw;
  let purchase_dt :=
    calendar E
      (now_dt - inject_Z (d_days d * 86400 + d_hours d * 3600
                          + d_minutes d * 60 + d_seconds d)) in
  let now_ms := py_int (now_dt * 1000) in
  let weekday_num := weekday purchase_dt in
  let product := choice no_product PRODUCT_CATALOG (d_product d) in
  let quantity := d_quantity d in
  let unit_price :=
    round2 (uniform (base_price product * (85 # 100))
                    (base_price product * (120 # 100)) (d_price d)) in
  let discount_pct := choice 0%Z DISCOUNTS (d_discount d) in
  let total_amount :=
    round2 (inject_Z quantity * unit_price * (1 - inject_Z discount_pct / 100)) in
  mret (list_to_map [
    ("order_id", PyStr (d_uuid d));
    ("user", PyStr (d_name d));
    ("item", PyStr (item product));
    ("category", PyStr (category product));
    ("quantity", PyInt quantity);
    ("unit_price", PyFloat unit_price);
    ("discount_pct", PyInt discount_pct);
    ("total_amount", PyFloat total_amount);
    ("payment_method", PyStr (choice "" PAYMENT_METHODS (d_payment d)));
    ("sales_channel", PyStr (choice "" SALES_CHANNELS (d_channel d)));
    ("store_city", PyStr (d_city d));
    ("purchase_datetime", PyStr (isoformat_seconds purchase_dt));
    ("purchase_date", PyStr (date_isoformat purchase_dt));
    ("purchase_time", PyStr (strftime_hms purchase_dt));
    ("weekday_name", PyStr (nth weekday_num WEEKDAYS ""));
    ("weekday_num", PyInt (Z.of_nat weekday_num));
    ("hour_of_day", PyInt (hour purchase_dt));
    ("is_weekend", PyBool (5 <=? weekday_num)%nat);
    ("event_time_ms", PyInt now_ms)
  ]).

(** Lines 70-83 of producer_invalid.py, on the dictionary [order]. *)
Definition select_mode (mode : string) (i : nat) : string :=
  if String.eqb mode "random" then choice "" INVALID_MODES i else mode.

Definition corrupt (selected_mode : string) (order : gmap string pyval)
  : gmap string pyval :=
  let order1 :=
    if String.eqb selected_mode "missing_unit_price" then
      delete "unit_price" order
    else if String.eqb selected_mode "missing_quantity" then
      delete "quantity" order
    else if String.eqb selected_mode "missing_both" then
      delete "quantity" (delete "unit_price" order)
    else if String.eqb selected_mode "non_positive_unit_price" then
      <["unit_price" := PyFloat 0]> order
    else if String.eqb selected_mode "non_positive_quantity" then
      <["quantity" := PyInt 0]> order
    else order in
  <["invalid_mode" := PyStr selected_mode]> order1.

(** Lines 67-84 of producer_invalid.py. *)
Definition create_invalid_order (mode : string) : M (gmap string pyval) :=
  order ← create_order;
  d ← next_draw;
  mret (corrupt (select_mode mode (d_mode d)) order).

Definition make_order : M (gmap string pyval) :=
  match script E with
  | Orders => create_order
  | InvalidOrders => create_invalid_order (invalid_mode (args E))
  end.

(** [order["order_id"]] *)
Definition order_id (order : gmap string pyval) : string :=
  match order !! "order_id" with
  | Some (PyStr s) => s
  | _ => ""
  end.

(** Lines 168-173 of producer.py: the pacing of the sends. *)
Definition pace (l : Locals) : M Locals :=
  let l1 :=
    set_next_send_time (next_send_time l + 1 / events_per_second (args E)) l in
  t ← read_clock;
  let sleep_for := next_send_time l1 - t in
  if Qlt_bool 0 sleep_for then sleep sleep_for;; mret l1
  else t' ← read_clock; mret (set_next_send_time t' l1).

(** Lines 175-186. *)
Definition report (l : Locals) : M Locals :=
  t ← read_clock;
  if Qle_bool (inject_Z (report_every_seconds (args E))) (t - last_report l) then
    _ ← read_clock;
    emit (EPrint LMetrics);;
    t' ← read_clock;
    mret (set_last_report t' l)
  else mret l.

(** One turn of [while not should_stop], lines 143-186. *)
Definition iteration (l : Locals) : M Step :=
  stop ← should_stop;
  if stop : bool then mret Break else
  now ← read_clock;
  if (0 <? duration_seconds (args E))%Z &&
     Qle_bool (inject_Z (duration_seconds (args E))) (now - start l)
  then mret Break else
  if (0 <? max_events (args E))%Z && (max_events (args E) <=? produced l)%Z
  then mret Break else
  order ← make_order;
  let payload := dumps E order in
  produce_start ← read_clock;
  accepted ← produce (order_id order) payload produce_start;
  if accepted : bool then
    poll 0;;
    l2 ← pace (bump_produced l);
    l3 ← report l2;
    mret (Again l3)
  else
    poll (1 # 10);;
    mret (Again l).

Fixpoint loop (fuel : nat) (l : Locals) : M (option Locals) :=
  match fuel with
  | O => mret None
  | S fuel' =>
      s ← iteration l;
      match s with
      | Break => mret (Some l)
      | Again l' => loop fuel' l'
      end
  end.

Definition init_locals (t : Q) : Locals :=
  {| start := t; last_report := t; next_send_time := t; produced := 0 |}.

(** Lines 113-197.  [fuel] bounds the number of loop turns. *)
Definition main (fuel : nat) : Outcome :=
  if Qle_bool (events_per_second (args E)) 0 then
    Raised (ValueError "--events-per-second must be greater than 0") world0
  else
    let '(_, w1) := emit (ECreateProducer (bootstrap_servers (args E))) world0 in
    let '(t0, w2) := read_clock w1 in
    match loop fuel (init_locals t0) w2 with
    | (None, w) => Unfinished w
    | (Some l, w3) =>
        let '(_, w4) := flush 10 w3 in
        let '(t, w5) := read_clock w4 in
        let elapsed := fmax (t - start l) (1 # 1000) in
        let '(_, w6) := emit (EPrint LSummary) w5 in
        Returned elapsed l w6
    end.

(** *** Vocabulary for the properties *)

Definition is_report_effect (e : Effect) : bool :=
  match e with
  | EReport _ _ | EPrint LError => true
  | _ => false
  end.

(** Callbacks invoked with and without an error, as seen in the log. *)
Definition acks (l : list Effect) : nat :=
  length (List.filter (fun e => match e with EReport _ false => true | _ => false end) l).
Definition nacks (l : list Effect) : nat :=
  length (List.filter (fun e => match e with EReport _ true => true | _ => false end) l).

(** Keys handed to [produce], in order, with the fate of each call. *)
Fixpoint attempted (l : list Effect) : list (string * bool) :=
  match l with
  | [] => []
  | ESubmit k _ :: l' => (k, true) :: attempted l'
  | EBufferError k :: l' => (k, false) :: attempted l'
  | _ :: l' => attempted l'
  end.

Definition submitted (l : list Effect) : list string :=
  map fst (List.filter snd (attempted l)).
Definition rejected (l : list Effect) : list string :=
  map fst (List.filter (fun a => negb (snd a)) (attempted l)).

Fixpoint sleeps (l : list Effect) : list Q :=
  match l with
  | [] => []
  | ESleep d :: l' => d :: sleeps l'
  | _ :: l' => sleeps l'
  end.

(** Every message in flight was submitted at a time the clock has
    reached. *)
Definition timely (w : World) : Prop :=
  Forall (fun f => started_at f <= now (clock w)) (inflight w).

(** With a clock that never goes back, the messages in flight stay timely
    and the latency total does not decrease. *)
Definition settles (w w' : World) : Prop :=
  (forall n, 0 <= lag E n) -> timely w ->
  timely w' /\
  ack_latency_total_ms (metrics w) <= ack_latency_total_ms (metrics w').

(** What pumping the client can change: reports are served, each one
    taking a message out of the queue and raising one counter; the clock
    is read, nothing is sent and nobody sleeps. *)
Record pumped (w w' : World) : Prop := {
  pumped_heads : heads w' = heads w;
  pumped_attempts : attempts w' = attempts w;
  pumped_log : exists extra,
    log w' = log w ++ extra /\
    forallb is_report_effect extra = true /\
    sent_ok (metrics w') = (sent_ok (metrics w) + Z.of_nat (acks extra))%Z /\
    sent_error (metrics w') = (sent_error (metrics w) + Z.of_nat (nacks extra))%Z /\
    (length (inflight w') + acks extra + nacks extra = length (inflight w))%nat;
  pumped_ticks : (ticks (clock w) <= ticks (clock w'))%nat;
  pumped_mono : (forall n, 0 <= lag E n) -> now (clock w) <= now (clock w');
  pumped_still :
    (forall n, (ticks (clock w) <= n)%nat -> lag E n == 0) ->
    now (clock w') == now (clock w);
  pumped_settles : settles w w'
}.

Definition max_reached (l : Locals) : bool :=
  (0 <? max_events (args E))%Z && (max_events (args E) <=? produced l)%Z.

Definition deadline_reached (l : Locals) (w : World) : bool :=
  (0 <? duration_seconds (args E))%Z &&
  Qle_bool (inject_Z (duration_seconds (args E)))
           (now (clock w) + lag E (ticks (clock w)) - start l).

(** Time passes between two worlds by clock readings only. *)
Record passes (w w' : World) : Prop := {
  passes_ticks : (ticks (clock w) <= ticks (clock w'))%nat;
  passes_mono : (forall n, 0 <= lag E n) -> now (clock w) <= now (clock w');
  passes_still :
    (forall n, (ticks (clock w) <= n)%nat -> lag E n == 0) ->
    now (clock w') == now (clock w)
}.

(** The reports served during a turn, and what they did. *)
Record reported (n : nat) (extra : list Effect) (w w' : World) : Prop := {
  reported_only : forallb is_report_effect extra = true;
  reported_ok :
    sent_ok (metrics w') = (sent_ok (metrics w) + Z.of_nat (acks extra))%Z;
  reported_error :
    sent_error (metrics w') = (sent_error (metrics w) + Z.of_nat (nacks extra))%Z;
  reported_queue :
    (length (inflight w') + acks extra + nacks extra
     = length (inflight w) + n)%nat
}.

(** The pacing decision of lines 168-173, taken at clock reading [t] for
    the deadline [nst]. *)
Inductive paced (nst t : Q) (w' : World) : list Effect -> Q -> Prop :=
  | paced_sleep :
      0 < nst - t ->
      ((forall n, 0 <= lag E n) -> nst <= now (clock w')) ->
      ((forall n, (1 <= n)%nat -> lag E n == 0) -> now (clock w') == nst) ->
      paced nst t w' [ESleep (nst - t)] nst
  | paced_reset t' :
      nst - t <= 0 ->
      ((forall n, 0 <= lag E n) -> t <= t' /\ t' <= now (clock w')) ->
      paced nst t w' [] t'.

(** The key of the event built in a turn that starts in world [w]. *)
Definition turn_key (w : World) : string := d_uuid (draw E (attempts w)).

(** What one turn of the send loop does. *)
Inductive turn (l : Locals) (w : World) : Step -> World -> Prop :=
  | turn_break w' :
      stop_seen E (heads w) = true \/
      deadline_reached l w = true \/ max_reached l = true ->
      attempts w' = attempts w ->
      log w' = log w ->
      metrics w' = metrics w ->
      inflight w' = inflight w ->
      passes w w' ->
      settles w w' ->
      turn l w Break w'
  | turn_rejected w' extra :
      stop_seen E (heads w) = false ->
      max_reached l = false ->
      buffer_full E (attempts w) = true ->
      attempts w' = S (attempts w) ->
      log w' = log w ++ [EBufferError (turn_key w); EPoll (1 # 10)] ++ extra ->
      reported 0 extra w w' ->
      passes w w' ->
      settles w w' ->
      turn l w (Again l) w'
  | turn_accepted l' w' v extra sl told t :
      stop_seen E (heads w) = false ->
      max_reached l = false ->
      buffer_full E (attempts w) = false ->
      attempts w' = S (attempts w) ->
      produced l' = (produced l + 1)%Z ->
      start l' = start l ->
      log w' = log w ++ [ESubmit (turn_key w) v; EPoll 0] ++ extra ++ sl ++ told ->
      reported 1 extra w w' ->
      told = [] \/ told = [EPrint LMetrics] ->
      (ticks (clock w) <= ticks (clock w'))%nat ->
      ((forall n, 0 <= lag E n) -> now (clock w) <= t) ->
      ((forall n, (1 <= n)%nat -> lag E n == 0) ->
       (1 <= ticks (clock w))%nat -> t == now (clock w)) ->
      paced (next_send_time l + 1 / events_per_second (args E)) t w' sl
            (next_send_time l') ->
      settles w w' ->
      turn l w (Again l') w'.

(** The key and the fate of the [i]-th call of [produce]. *)
Definition attempt_of (i : nat) : string * bool :=
  (d_uuid (draw E i), negb (buffer_full E i)).

(** The log accounts for every call of [produce] so far, and [produced]
    counts the accepted ones. *)
Definition tallied (l : Locals) (w : World) : Prop :=
  attempted (log w) = map attempt_of (seq 0 (attempts w)) /\
  produced l = Z.of_nat (length (submitted (log w))).

(** The counters are the numbers of callbacks invoked so far. *)
Definition counted (w : World) : Prop :=
  sent_ok (metrics w) = Z.of_nat (acks (log w)) /\
  sent_error (metrics w) = Z.of_nat (nacks (log w)).

(** The world in which the loop starts, and the start time of the run. *)
Definition loop_world : World :=
  snd (read_clock (snd (emit (ECreateProducer (bootstrap_servers (args E))) world0))).

Definition start_time : Q := fst (read_clock world0).

(** A run that only the event count can end: no stop signal, no time
    limit, and a positive [max_events]. *)
Definition count_bounded : Prop :=
  (forall i, stop_seen E i = false) /\
  (duration_seconds (args E) <= 0)%Z /\
  (0 < max_events (args E))%Z.

(** The buffer frees on retry: the call after a rejected one is accepted. *)
Definition frees_on_retry : Prop :=
  forall i, buffer_full E i = true -> buffer_full E (S i) = false.

(** The period of the schedule, and where a run stands against it. *)
Definition period : Q := 1 / events_per_second (args E).

Definition on_schedule (l : Locals) (w : World) : Prop :=
  start l + inject_Z (produced l) * period <= next_send_time l /\
  next_send_time l <= now (clock w).

Definition on_time (l : Locals) (w : World) : Prop :=
  next_send_time l == start l + inject_Z (produced l) * period /\
  now (clock w) == next_send_time l /\
  (1 <= ticks (clock w))%nat.

(** The clock moves only while the program sleeps. *)
Definition instantaneous : Prop := forall n, (1 <= n)%nat -> lag E n == 0.

(** What each corruption strategy is documented to do to a valid event
    [o], giving [o']. *)
Definition documented (mode : string) (o o' : gmap string pyval) : Prop :=
  o' !! "invalid_mode" = Some (PyStr mode) /\
  (forall k : string,
     k <> "unit_price" -> k <> "quantity" -> k <> "invalid_mode" ->
     o' !! k = o !! k) /\
  ((mode = "missing_unit_price" /\
    o' !! "unit_price" = None /\ o' !! "quantity" = o !! "quantity") \/
   (mode = "missing_quantity" /\
    o' !! "quantity" = None /\ o' !! "unit_price" = o !! "unit_price") \/
   (mode = "missing_both" /\
    o' !! "unit_price" = None /\ o' !! "quantity" = None) \/
   (mode = "non_positive_unit_price" /\
    o' !! "unit_price" = Some (PyFloat 0) /\ o' !! "quantity" = o !! "quantity") \/
   (mode = "non_positive_quantity" /\
    o' !! "quantity" = Some (PyInt 0) /\ o' !! "unit_price" = o !! "unit_price")).

End Run.

(** The keys of the dictionary literal returned by [create_order]
    (lines 90-110 of producer.py), in the order of the source. *)
Definition ORDER_FIELDS : list string := [
  "order_id"; "user"; "item"; "category"; "quantity"; "unit_price";
  "discount_pct"; "total_amount"; "payment_method"; "sales_channel";
  "store_city"; "purchase_datetime"; "purchase_date"; "purchase_time";
  "weekday_name"; "weekday_num"; "hour_of_day"; "is_weekend"; "event_time_ms"
].

(** The timeouts of the calls of [producer.poll], in order. *)
Fixpoint polls (l : list Effect) : list Q :=
  match l with
  | [] => []
  | EPoll t :: l' => t :: polls l'
  | _ :: l' => polls l'
  end.

(** The timeout of the poll that follows a call of [produce]: 0 after an
    accepted record, a tenth of a second after [BufferError]. *)
Definition poll_after (a : string * bool) : Q :=
  if snd a then 0 else 1 # 10.

Definition final_world (o : Outcome) : World :=
  match o with Raised _ w => w | Unfinished w => w | Returned _ _ w => w end.

Definition elapsed_of (o : Outcome) : Q :=
  match o with Returned e _ _ => e | _ => 0 end.

Definition locals_of (o : Outcome) : Locals :=
  match o with Returned _ l _ => l | _ => init_locals 0 end.

Definition is_returned (o : Outcome) : bool :=
  match o with Returned _ _ _ => true | _ => false end.

(** *** Sample runs *)

Definition sample_draw (n : nat) : Draw :=
  {| d_days := 3; d_hours := 4; d_minutes := 5; d_seconds := 6;
     d_product := n; d_quantity := 2; d_price := 1 # 2; d_discount := n;
     d_uuid := String (ascii_of_nat (97 + n)) EmptyString;
     d_name := "Ada"; d_payment := n; d_channel := n; d_city := "Gdansk";
     d_mode := n |}.

Definition sample_stamp : Stamp :=
  {| isoformat_seconds := "2026-01-03T10:20:30";
     date_isoformat := "2026-01-03";
     strftime_hms := "10:20:30"; weekday := 5; hour := 10 |}.

Definition sample_args (rate : Q) (limit : Z) : Args :=
  {| bootstrap_servers := "localhost:9092,localhost:9094"; topic := "orders";
     events_per_second := rate; max_events := limit; duration_seconds := 0;
     report_every_seconds := 5; invalid_mode := "random" |}.

(** The clock starts at 1700000000 s and moves only while the program
    sleeps; no stop signal; every poll serves the oldest report, a
    success; the buffer is full at the attempts listed in [full]. *)
Definition sample_env (s : Script) (rate : Q) (limit : Z) (full : list nat) : Env :=
  {| script := s;
     args := sample_args rate limit;
     lag := fun n => match n with O => inject_Z 1700000000 | S _ => 0 end;
     stop_seen := fun _ => false;
     buffer_full := fun n => existsb (Nat.eqb n) full;
     served := fun _ => [ {| slot := 0; err := None |} ];
     draw := sample_draw;
     calendar := fun _ => sample_stamp;
     dumps := order_id |}.

(** As [sample_env], with a buffer that never drains and a client that
    reports nothing. *)
Definition jammed_env (rate : Q) (limit : Z) : Env :=
  {| script := Orders;
     args := sample_args rate limit;
     lag := fun n => match n with O => inject_Z 1700000000 | S _ => 0 end;
     stop_seen := fun _ => false;
     buffer_full := fun _ => true;
     served := fun _ => [];
     draw := sample_draw;
     calendar := fun _ => sample_stamp;
     dumps := order_id |}.

(** As [sample_env] without limits, with a signal that arrives before the
    [k]-th loop test. *)
Definition interrupted_env (rate : Q) (k : nat) : Env :=
  {| script := Orders;
     args := sample_args rate 0;
     lag := fun n => match n with O => inject_Z 1700000000 | S _ => 0 end;
     stop_seen := fun n => Nat.leb k n;
     buffer_full := fun _ => false;
     served := fun _ => [ {| slot := 0; err := None |} ];
     draw := sample_draw;
     calendar := fun _ => sample_stamp;
     dumps := order_id |}.

(** As [sample_env], with a time limit instead of an event count. *)
Definition timed_env (rate : Q) (seconds : Z) : Env :=
  {| script := Orders;
     args :=
       {| bootstrap_servers := "localhost:9092,localhost:9094";
          topic := "orders"; events_per_second := rate; max_events := 0;
          duration_seconds := seconds; report_every_seconds := 5;
          invalid_mode := "random" |};
     lag := fun n => match n with O => inject_Z 1700000000 | S _ => 0 end;
     stop_seen := fun _ => false;
     buffer_full := fun _ => false;
     served := fun _ => [ {| slot := 0; err := None |} ];
     draw := sample_draw;
     calendar := fun _ => sample_stamp;
     dumps := order_id |}.

End Producer.

(** * Properties of the tracker *)

(** ** scripts/reset_project.py *)

Module Reset.

Local Open Scope Q_scope.

(** Paths are written relative to [REPO_ROOT] (or to the home directory,
    with a leading tilde). *)
Definition NOTEBOOK_PATH : string := "kafka_spark_notebook.ipynb".
Definition DATA_DIR : string := "data".
Definition OUTPUT_DIR : string := "output".
Definition RUNTIME_CANDIDATES : list string :=
  ["~/Library/Jupyter/runtime"; "~/.local/share/jupyter/runtime"].
Definition RUNTIME_PATTERNS : list string := ["kernel-*.json"; "nbserver-*.json"].

Definition CHECK_CMD : list string :=
  ["docker"; "exec"; "kafka-1"; "kafka-topics"; "--list";
   "--bootstrap-server"; "kafka-1:9092,kafka-2:9092"].

Record Args := {
  topic : string;
  partitions : Z;
  replication_factor : Z;
  skip_kill_processes : bool;
  skip_clear_notebook : bool;
  skip_kafka_restart : bool
}.

Inductive Exn :=
  | CommandFailed (rc : Z) (cmd : list string)  (* RuntimeError of run_cmd *)
  | KafkaNotReady                               (* RuntimeError of wait_for_kafka *)
  | AttributeError
  | TypeError
  | LoadError.                                  (* json.load raised *)

Inductive Line :=
  | LCommand (cmd : list string)
  | LStopped (pattern : string)
  | LNoProcess (pattern : string)
  | LPkillWarning (rc : Z) (pattern : string)
  | LUnlinkWarning (file : string)
  | LRuntimeRemoved
  | LRuntimeNothing
  | LNotebookMissing
  | LNotebookCleared
  | LNotebookClean
  | LRecreated (dir : string)
  | LKafkaReady
  | LKafkaWaiting (attempt max_attempts : Z)
  | LStoppingLocal
  | LSkippedKafka
  | LSkippedNotebook
  | LDone
  | LNext
  | LFailure (e : Exn).                         (* on stderr *)

Inductive Effect :=
  | EPrint (l : Line)
  | ERun (cmd : list string)                    (* subprocess.run(cmd, cwd=REPO_ROOT) *)
  | EUnlink (file : string)
  | ERmtree (dir : string)
  | EMkdir (dir : string)
  | EWrite (path : string) (content : pyval)    (* json.dump and a newline *)
  | ESleep (d : Q).

(** The machine the script runs on.  [notebook] is what [json.load] makes
    of the notebook file: [None] when the file does not exist,
    [Some None] when loading it raises.  [tree] maps each directory that
    exists to its entries.  File-system calls other than [unlink] are
    taken to succeed, and [subprocess.run] to start its command and hand
    back a return code. *)
Record World := {
  runs : nat;
  notebook : option (option pyval);
  tree : gmap string (list string);
  log : list Effect
}.

Record Env := {
  args : Args;
  (** The return code of the [n]-th call of [subprocess.run]. *)
  returncode : nat -> Z;
  is_dir : string -> bool;
  glob : string -> string -> list string;
  (** Whether [unlink] of the file raises [OSError]. *)
  unlink_fails : string -> bool
}.

Definition M (A : Type) : Type := World -> (Exn + A) * World.

Definition ret {A} (a : A) : M A := fun w => (inr a, w).
Definition raise {A} (e : Exn) : M A := fun w => (inl e, w).
Definition bind {A B} (m : M A) (k : A -> M B) : M B := fun w =>
  match m w with
  | (inl e, w') => (inl e, w')
  | (inr a, w') => k a w'
  end.

Notation "m >>= k" := (bind m k) (at level 58, left associativity).
Notation "m >> k" := (bind m (fun _ => k)) (at level 58, left associativity).

Definition emit (e : Effect) : M unit := fun w =>
  (inr tt, {| runs := runs w; notebook := notebook w; tree := tree w;
              log := log w ++ [e] |}).

Definition print (l : Line) : M unit := emit (EPrint l).

Definition path_exists (dir : string) : M bool := fun w =>
  (inr (bool_decide (is_Some (tree w !! dir))), w).

Definition rmtree (dir : string) : M unit := fun w =>
  emit (ERmtree dir)
    {| runs := runs w; notebook := notebook w; tree := delete dir (tree w);
       log := log w |}.

(** [mkdir(parents=True, exist_ok=True)] *)
Definition mkdir (dir : string) : M unit := fun w =>
  emit (EMkdir dir)
    {| runs := runs w; notebook := notebook w;
       tree := match tree w !! dir with
               | Some _ => tree w
               | None => <[dir := []]> (tree w)
               end;
       log := log w |}.

Definition write_notebook (v : pyval) : M unit := fun w =>
  emit (EWrite NOTEBOOK_PATH v)
    {| runs := runs w; notebook := Some (Some v); tree := tree w;
       log := log w |}.

(** Truth value of a Python object. *)
Definition truthy (v : pyval) : bool :=
  match v with
  | PyNone => false
  | PyBool b => b
  | PyInt z => negb (z =? 0)%Z
  | PyFloat q => negb (Qeq_bool q 0)
  | PyStr s => negb (String.eqb s "")
  | PyList l => match l with [] => false | _ :: _ => true end
  | PyDict d => negb (Nat.eqb (size d) 0)
  end.

(** [cell.get("cell_type") != "code"] *)
Definition is_code (cell : gmap string pyval) : bool :=
  match dict_get cell "cell_type" with
  | PyStr s => String.eqb s "code"
  | _ => false
  end.

(** Lines 65-72, for one cell: the cell after the turn, and whether it
    was changed. *)
Definition clear_cell (cell : gmap string pyval) : gmap string pyval * bool :=
  if negb (is_code cell) then (cell, false) else
  let '(cell1, changed1) :=
    if truthy (dict_get cell "outputs")
    then (<["outputs" := PyList []]> cell, true)
    else (cell, false) in
  match dict_get cell1 "execution_count" with
  | PyNone => (cell1, changed1)
  | _ => (<["execution_count" := PyNone]> cell1, true)
  end.

(** The loop of lines 64-72.  A cell that is no object has no [get]. *)
Fixpoint clear_cells (cells : list pyval) : Exn + (list pyval * bool) :=
  match cells with
  | [] => inr ([], false)
  | PyDict cell :: rest =>
      let '(cell', changed) := clear_cell cell in
      match clear_cells rest with
      | inl e => inl e
      | inr (rest', changed') => inr (PyDict cell' :: rest', changed || changed')
      end
  | _ :: _ => inl AttributeError
  end.

(** What [for cell in notebook.get("cells", [])] iterates over. *)
Definition iter_cells (v : option pyval) : Exn + list pyval :=
  match v with
  | None => inr []
  | Some (PyList l) => inr l
  | Some (PyDict d) => inr (map (fun kv => PyStr (fst kv)) (map_to_list d))
  | Some (PyStr s) =>
      inr (map (fun c => PyStr (String c EmptyString)) (list_ascii_of_string s))
  | Some _ => inl TypeError
  end.

Section Run.

Variable E : Env.

Definition subprocess_run (cmd : list string) : M Z := fun w =>
  (inr (returncode E (runs w)),
   {| runs := S (runs w); notebook := notebook w; tree := tree w;
      log := log w ++ [ERun cmd] |}).

(** Lines 15-20. *)
Definition run_cmd (cmd : list string) (check : bool) : M Z :=
  print (LCommand cmd) >>
  subprocess_run cmd >>= fun rc =>
  if check && negb (rc =? 0)%Z then raise (CommandFailed rc cmd) else ret rc.

(** Lines 23-30. *)
Definition best_effort_kill (pattern : string) : M unit :=
  run_cmd ["pkill"; "-f"; pattern] false >>= fun rc =>
  if (rc =? 0)%Z then print (LStopped pattern)
  else if (rc =? 1)%Z then print (LNoProcess pattern)
  else print (LPkillWarning rc pattern).

(** The files the three nested loops of lines 39-43 visit, in order. *)
Definition runtime_files : list string :=
  flat_map (fun runtime_dir =>
              if is_dir E runtime_dir
              then flat_map (glob E runtime_dir) RUNTIME_PATTERNS
              else [])
           RUNTIME_CANDIDATES.

(** Lines 44-48, over those files; the result is [removed_any]. *)
Fixpoint unlink_all (files : list string) (removed_any : bool) : M bool :=
  match files with
  | [] => ret removed_any
  | f :: rest =>
      if unlink_fails E f
      then print (LUnlinkWarning f) >> unlink_all rest removed_any
      else emit (EUnlink f) >> unlink_all rest true
  end.

(** Lines 33-52. *)
Definition cleanup_jupyter_runtime : M unit :=
  unlink_all runtime_files false >>= fun removed_any =>
  if removed_any : bool then print LRuntimeRemoved else print LRuntimeNothing.

(** Lines 55-80, for [NOTEBOOK_PATH]. *)
Definition clear_notebook_outputs : M unit := fun w =>
  match notebook w with
  | None => print LNotebookMissing w
  | Some None => raise LoadError w
  | Some (Some (PyDict nb)) =>
      match iter_cells (nb !! "cells") with
      | inl e => raise e w
      | inr cells =>
          match clear_cells cells with
          | inl e => raise e w
          | inr (cells', changed) =>
              if changed
              then (write_notebook (PyDict (<["cells" := PyList cells']> nb)) >>
                    print LNotebookCleared) w
              else print LNotebookClean w
          end
      end
  | Some (Some _) => raise AttributeError w
  end.

Definition recreate (dir : string) : M unit :=
  path_exists dir >>= fun present =>
  (if present : bool then rmtree dir else ret tt) >>
  mkdir dir >>
  print (LRecreated dir).

(** Lines 83-95. *)
Definition reset_directories : M unit :=
  recreate DATA_DIR >> recreate OUTPUT_DIR.

(** The loop of lines 108-115: [remaining] turns are left, the next one
    is numbered [attempt]. *)
Fixpoint wait_loop (remaining : nat) (attempt max_attempts : Z) (delay_seconds : Q)
  : M unit :=
  match remaining with
  | O => raise KafkaNotReady
  | S remaining' =>
      run_cmd CHECK_CMD false >>= fun rc =>
      if (rc =? 0)%Z then print LKafkaReady
      else
        print (LKafkaWaiting attempt max_attempts) >>
        emit (ESleep delay_seconds) >>
        wait_loop remaining' (attempt + 1)%Z max_attempts delay_seconds
  end.

(** Lines 98-115; [range(1, max_attempts + 1)] has [max_attempts]
    elements, none when [max_attempts] is not positive. *)
Definition wait_for_kafka (max_attempts : Z) (delay_seconds : Q) : M unit :=
  wait_loop (Z.to_nat max_attempts) 1 max_attempts delay_seconds.

Definition kill_phase : M unit :=
  print LStoppingLocal >>
  best_effort_kill "jupyter-notebook" >>
  best_effort_kill "jupyter-lab" >>
  best_effort_kill "ipykernel_launcher" >>
  best_effort_kill "spark-submit" >>
  best_effort_kill "org.apache.spark.deploy.SparkSubmit" >>
  cleanup_jupyter_runtime.

Definition kafka_phase : M unit :=
  run_cmd ["docker"; "compose"; "down"; "-v"] true >>
  run_cmd ["docker"; "compose"; "up"; "-d"] true >>
  wait_for_kafka 20 (3 # 2) >>
  run_cmd ["scripts/create_topic.sh"; topic (args E);
           pretty (partitions (args E));
           pretty (replication_factor (args E))] true >>
  ret tt.

(** Lines 143-179. *)
Definition main : M Z :=
  (if negb (skip_kill_processes (args E)) then kill_phase else ret tt) >>
  (if negb (skip_kafka_restart (args E)) then kafka_phase
   else print LSkippedKafka) >>
  reset_directories >>
  (if negb (skip_clear_notebook (args E)) then clear_notebook_outputs
   else print LSkippedNotebook) >>
  print LDone >>
  print LNext >>
  ret 0%Z.

(** Lines 182-187: the exit status of the script. *)
Definition script (w : World) : Z * World :=
  match main w with
  | (inr rc, w') => (rc, w')
  | (inl e, w') => (1%Z, snd (print (LFailure e) w'))
  end.

(** *** Vocabulary for the properties *)

Fixpoint commands (l : list Effect) : list (list string) :=
  match l with
  | [] => []
  | ERun cmd :: l' => cmd :: commands l'
  | _ :: l' => commands l'
  end.

Fixpoint sleeps (l : list Effect) : list Q :=
  match l with
  | [] => []
  | ESleep d :: l' => d :: sleeps l'
  | _ :: l' => sleeps l'
  end.

Fixpoint writes (l : list Effect) : list pyval :=
  match l with
  | [] => []
  | EWrite _ v :: l' => v :: writes l'
  | _ :: l' => writes l'
  end.

(** The [n] return codes from the [i]-th call on are all failures. *)
Definition all_fail (i n : nat) : Prop :=
  forall j, (j < n)%nat -> returncode E (i + j) <> 0%Z.

End Run.

(** A code cell as the script leaves it. *)
Definition cleared (cell : gmap string pyval) : Prop :=
  truthy (dict_get cell "outputs") = false /\
  dict_get cell "execution_count" = PyNone.

(** What the loop may do to one cell. *)
Definition cell_cleared (c c' : pyval) : Prop :=
  exists d d',
    c = PyDict d /\ c' = PyDict d' /\
    (forall k : string, k <> "outputs" -> k <> "execution_count" ->
       d' !! k = d !! k) /\
    (is_code d = false -> d' = d) /\
    (is_code d = true -> cleared d').

(** The directories and the notebook are as they were. *)
Definition untouched (w w' : World) : Prop :=
  tree w' = tree w /\ notebook w' = notebook w.

(** *** Sample machine *)

Definition sample_args (kill notebook kafka : bool) : Args :=
  {| topic := "orders"; partitions := 6; replication_factor := 2;
     skip_kill_processes := negb kill; skip_clear_notebook := negb notebook;
     skip_kafka_restart := negb kafka |}.

(** No runtime directory; the calls of [subprocess.run] numbered 2 to
    [1 + down] return 1 and all others 0: with the kill phase skipped,
    these are the first [down] readiness checks. *)
Definition sample_env (kill notebook kafka : bool) (down : nat) : Env :=
  {| args := sample_args kill notebook kafka;
     returncode := fun n =>
       if (2 <=? n)%nat && (n <? 2 + down)%nat then 1%Z else 0%Z;
     is_dir := fun _ => false;
     glob := fun _ _ => [];
     unlink_fails := fun _ => false |}.

Definition sample_cell (kind : string) (outputs : list pyval) (count : pyval)
  : pyval :=
  PyDict (list_to_map [("cell_type", PyStr kind); ("outputs", PyList outputs);
                       ("execution_count", count); ("source", PyStr "df.show()")]).

Definition sample_cells : list pyval :=
  [sample_cell "markdown" [] PyNone;
   sample_cell "code" [PyStr "+---+"] (PyInt 3)].

Definition sample_notebook : gmap string pyval :=
  list_to_map [("cells", PyList sample_cells); ("nbformat", PyInt 4)].

(** A machine on which [runs] commands have been run already. *)
Definition sample_world (runs : nat) : World :=
  {| runs := runs; notebook := Some (Some (PyDict sample_notebook));
     tree := list_to_map [("data", ["orders.parquet"])]; log := [] |}.

End Reset.

Module TrackerFacts.

Import Tracker.

Section Facts.

Variable E : Env.

(** *** How each statement touches the log and the counters *)

Lemma commits_at_snoc s l e :
  commits_at s (l ++ [e]) =
  (commits_at s l + (if is_commit_at s e then 1 else 0))%nat.
Proof.
  unfold commits_at. rewrite List.filter_app, List.length_app. simpl.
  destruct (is_commit_at s e); reflexivity.
Qed.

Lemma commit_calls_snoc l e :
  commit_calls (l ++ [e]) = (commit_calls l + (if is_commit e then 1 else 0))%nat.
Proof.
  unfold commit_calls. rewrite List.filter_app, List.length_app. simpl.
  destruct (is_commit e); reflexivity.
Qed.

Lemma commit_calls_split l :
  commit_calls l = (commits_at Cadence l + commits_at Shutdown l)%nat.
Proof.
  unfold commit_calls, commits_at.
  induction l as [|e l IH]; [reflexivity|].
  destruct e as [t|[]| |ln]; simpl; lia.
Qed.

Lemma read_clock_frame st :
  metrics (snd (read_clock E st)) = metrics st /\
  log (snd (read_clock E st)) = log st /\
  last_report (snd (read_clock E st)) = last_report st.
Proof. unfold read_clock, time_time. simpl. auto. Qed.

Lemma account_log order st : log (account E order st) = log st.
Proof.
  unfold account. destruct (isinstance_int _); reflexivity.
Qed.

Lemma account_processed order st :
  processed (metrics (account E order st)) = processed (metrics st) + 1.
Proof.
  unfold account. destruct (isinstance_int _); reflexivity.
Qed.

Lemma account_errors order st :
  errors (metrics (account E order st)) = errors (metrics st).
Proof.
  unfold account. destruct (isinstance_int _); reflexivity.
Qed.

Lemma maybe_report_metrics st : metrics (maybe_report E st) = metrics st.
Proof.
  unfold maybe_report, read_clock, time_time. simpl.
  destruct (Qle_bool _ _); reflexivity.
Qed.

Lemma maybe_report_commits s st :
  commits_at s (log (maybe_report E st)) = commits_at s (log st).
Proof.
  unfold maybe_report, read_clock, time_time. simpl.
  destruct (Qle_bool _ _); simpl; [|reflexivity].
  rewrite commits_at_snoc. destruct s; simpl; lia.
Qed.

Lemma count_error_frame s st :
  processed (metrics (count_error st)) = processed (metrics st) /\
  latency_total_ms (metrics (count_error st)) = latency_total_ms (metrics st) /\
  commits_at s (log (count_error st)) = commits_at s (log st).
Proof.
  unfold count_error. simpl. rewrite commits_at_snoc.
  destruct s; simpl; repeat split; lia.
Qed.

Lemma cadence_due_emit e st : cadence_due E (emit e st) = cadence_due E st.
Proof. reflexivity. Qed.

Lemma cadence_due_report st : cadence_due E (maybe_report E st) = cadence_due E st.
Proof. unfold cadence_due. rewrite maybe_report_metrics. reflexivity. Qed.

Lemma body_turn p st : turn E st (body E p st).
Proof.
  destruct p as [|m|]; simpl.
  - apply turn_skip; auto.
  - destruct (msg_error m) as [err|].
    { apply turn_skip; [|intros s]; apply (count_error_frame Cadence st) || apply count_error_frame. }
    destruct (from_option (loads E) None (msg_value m)) as [v|].
    2:{ apply turn_skip; [|intros s]; apply (count_error_frame Cadence st) || apply count_error_frame. }
    destruct v as [|b|z|q|s|l|order];
      try (apply turn_not_a_dict; [reflexivity | intros s'; reflexivity]).
    unfold maybe_commit.
    set (st1 := emit (EPrint LEvent) (account E order st)).
    assert (Hp : processed (metrics st1) = processed (metrics st) + 1)
      by apply account_processed.
    assert (Hl : forall s, commits_at s (log st1) = commits_at s (log st)).
    { intros s. unfold st1. simpl. rewrite commits_at_snoc, account_log.
      destruct s; simpl; lia. }
    destruct (cadence_due E st1) eqn:Hdue.
    + destruct (commit_raises _).
      * apply turn_commit_raised.
        -- exact Hp.
        -- exact Hdue.
        -- simpl. rewrite commits_at_snoc, Hl. simpl. lia.
        -- simpl. rewrite commits_at_snoc, Hl. simpl. lia.
      * apply turn_record.
        -- rewrite maybe_report_metrics. exact Hp.
        -- rewrite maybe_report_commits. simpl.
           rewrite commits_at_snoc, Hl. simpl. lia.
        -- rewrite maybe_report_commits, cadence_due_report, cadence_due_emit, Hdue.
           simpl. rewrite commits_at_snoc, Hl. reflexivity.
    + apply turn_record.
      * rewrite maybe_report_metrics. exact Hp.
      * rewrite maybe_report_commits. apply Hl.
      * rewrite maybe_report_commits, cadence_due_report, Hdue, Hl. lia.
  - apply turn_interrupt.
Qed.

(** *** The loop as a whole *)

Lemma poll_loop_app tr1 tr2 st :
  poll_loop E (tr1 ++ tr2) st =
  match poll_loop E tr1 st with
  | Pending st' => poll_loop E tr2 st'
  | r => r
  end.
Proof.
  revert st. induction tr1 as [|p tr1 IH]; intros st; simpl; [reflexivity|].
  destruct (body E p st); [apply IH | reflexivity].
Qed.

Lemma succ_div_cadence (p c : Z) :
  0 < c -> (p + 1) / c = p / c + (if (p + 1) mod c =? 0 then 1 else 0).
Proof.
  intros Hc. destruct ((p + 1) mod c =? 0) eqn:Hm.
  - apply Z.eqb_eq in Hm. Z.to_euclidean_division_equations. nia.
  - apply Z.eqb_neq in Hm. Z.to_euclidean_division_equations. nia.
Qed.

Lemma body_on_cadence p st :
  0 < commit_every (args E) -> on_cadence E st ->
  match body E p st with
  | Pending st' => on_cadence E st'
  | Raised KeyboardInterrupt st' => st' = st
  | Raised _ _ => True
  end.
Proof.
  intros Hc [Hdiv Hsh]. destruct (body_turn p st) as
    [st' Hp Hl | st' Hp Hs Hcad | st' Hp Hdue Hs Hcad | st' Hp Hl | ]; auto.
  - split; [rewrite Hl, Hp | rewrite Hl]; assumption.
  - split; [|congruence].
    rewrite Hcad, Hp, succ_div_cadence by assumption.
    unfold cadence_due. rewrite Hp.
    assert (Hpos : (0 <? commit_every (args E)) = true) by (apply Z.ltb_lt; exact Hc).
    rewrite Hpos. simpl. rewrite Nat2Z.inj_add, Hdiv.
    destruct (_ =? 0); reflexivity.
Qed.

Lemma poll_loop_on_cadence tr st :
  0 < commit_every (args E) -> on_cadence E st ->
  match poll_loop E tr st with
  | Pending st' | Raised KeyboardInterrupt st' => on_cadence E st'
  | Raised _ _ => True
  end.
Proof.
  intros Hc. revert st. induction tr as [|p tr IH]; intros st Hinv; simpl.
  - exact Hinv.
  - pose proof (body_on_cadence p st Hc Hinv) as Hb.
    destruct (body E p st) as [st'|[] st'].
    + apply IH. exact Hb.
    + rewrite Hb. exact Hinv.
    + exact I.
    + exact I.
Qed.

Lemma init_on_cadence : on_cadence E (init E).
Proof.
  unfold on_cadence, init, time_time. simpl. split; [|reflexivity].
  symmetry. apply Zdiv_0_l.
Qed.

Lemma finally_frame st :
  metrics (finally E st) = metrics st /\
  commits_at Cadence (log (finally E st)) = commits_at Cadence (log st) /\
  commits_at Shutdown (log (finally E st)) = S (commits_at Shutdown (log st)).
Proof.
  unfold finally, read_clock, time_time. simpl.
  rewrite !commits_at_snoc. simpl. repeat split; lia.
Qed.

(** With a non-positive [commit_every] the guard of line 75 is false. *)
Lemma cadence_off st : commit_every (args E) <= 0 -> cadence_due E st = false.
Proof.
  intros Hc. unfold cadence_due.
  assert (Hoff : (0 <? commit_every (args E)) = false) by (apply Z.ltb_ge; exact Hc).
  rewrite Hoff. reflexivity.
Qed.

Lemma body_no_commit p st :
  commit_every (args E) <= 0 ->
  forall s, commits_at s (log (flow_state (body E p st))) = commits_at s (log st).
Proof.
  intros Hc s. destruct (body_turn p st) as
    [st' Hp Hl | st' Hp Hs Hcad | st' Hp Hdue Hs Hcad | st' Hp Hl | ]; simpl; auto.
  - rewrite (cadence_off st' Hc) in Hcad. destruct s; [lia | exact Hs].
  - rewrite (cadence_off st' Hc) in Hdue. discriminate.
Qed.

Lemma poll_loop_no_commit tr st :
  commit_every (args E) <= 0 ->
  forall s, commits_at s (log (flow_state (poll_loop E tr st))) = commits_at s (log st).
Proof.
  intros Hc s. revert st. induction tr as [|p tr IH]; intros st; simpl; auto.
  pose proof (body_no_commit p st Hc s) as Hb.
  destruct (body E p st) as [st'|e st']; simpl in *; [rewrite IH|]; exact Hb.
Qed.

Lemma body_harmless p st :
  (forall n, commit_raises E n = false) -> harmless E p = true ->
  exists st', body E p st = Pending st' /\
    processed (metrics st') =
      processed (metrics st) +
      Z.of_nat (valid_records E [p]).
Proof.
  intros Hok Hp. unfold valid_records.
  destruct p as [|m|]; simpl in *; try discriminate.
  - exists st. split; [reflexivity | lia].
  - unfold is_valid.
    destruct (msg_error m).
    { eexists. split; [reflexivity|]. simpl. symmetry. apply Z.add_0_r. }
    destruct (from_option (loads E) None (msg_value m)) as [[| | | | | |order]|];
      try discriminate.
    + unfold maybe_commit. destruct (cadence_due E _).
      * rewrite Hok. eexists. split; [reflexivity|].
        rewrite maybe_report_metrics. apply account_processed.
      * eexists. split; [reflexivity|].
        rewrite maybe_report_metrics. apply account_processed.
    + eexists. split; [reflexivity|]. simpl. symmetry. apply Z.add_0_r.
Qed.

Lemma valid_records_cons p tr :
  valid_records E (p :: tr) = (valid_records E [p] + valid_records E tr)%nat.
Proof.
  unfold valid_records. simpl.
  destruct p as [|m|]; simpl; try reflexivity. destruct (is_valid E m); reflexivity.
Qed.

Lemma poll_loop_harmless tr st :
  (forall n, commit_raises E n = false) -> forallb (harmless E) tr = true ->
  exists st', poll_loop E tr st = Pending st' /\
    processed (metrics st') = processed (metrics st) + Z.of_nat (valid_records E tr).
Proof.
  intros Hok. revert st. induction tr as [|p tr IH]; intros st Hall.
  - exists st. split; [reflexivity|]. unfold valid_records. simpl. lia.
  - simpl in Hall. apply andb_true_iff in Hall as [Hp Htr].
    destruct (body_harmless p st Hok Hp) as (st1 & Hb & Hp1).
    destruct (IH st1 Htr) as (st2 & Hl & Hp2).
    exists st2. simpl. rewrite Hb. split; [exact Hl|].
    rewrite Hp2, Hp1, (valid_records_cons p tr). lia.
Qed.

Lemma main_exited tr st :
  main E tr = Exited st ->
  exists st0, poll_loop E tr (init E) = Raised KeyboardInterrupt st0 /\
              st = finally E (emit (EPrint LStopping) st0).
Proof.
  unfold main. destruct (poll_loop E tr (init E)) as [st0|[] st0];
    intros H; try discriminate.
  exists st0. split; [reflexivity | congruence].
Qed.

Lemma stopping_frame s st :
  commits_at s (log (emit (EPrint LStopping) st)) = commits_at s (log st).
Proof. simpl. rewrite commits_at_snoc. destruct s; simpl; lia. Qed.

(** Records of the wrong JSON type still count as processed and leave the
    latency alone; so do objects whose [event_time_ms] is absent or is no
    [int] instance. *)
Lemma account_untimed order st :
  isinstance_int (dict_get order "event_time_ms") = None ->
  processed (metrics (account E order st)) = processed (metrics st) + 1 /\
  latency_total_ms (metrics (account E order st)) = latency_total_ms (metrics st).
Proof. intros H. unfold account. rewrite H. simpl. auto. Qed.

Lemma exited_commit_counts tr st :
  0 < commit_every (args E) ->
  main E tr = Exited st ->
  Z.of_nat (commits_at Cadence (log st)) =
    processed (metrics st) / commit_every (args E) /\
  commits_at Shutdown (log st) = 1%nat /\
  Z.of_nat (commit_calls (log st)) =
    processed (metrics st) / commit_every (args E) + 1.
Proof.
  intros Hc Hrun. destruct (main_exited tr st Hrun) as (st0 & Hloop & ->).
  pose proof (poll_loop_on_cadence tr (init E) Hc init_on_cadence) as Hinv.
  rewrite Hloop in Hinv. destruct Hinv as [Hdiv Hsh].
  destruct (finally_frame (emit (EPrint LStopping) st0)) as (Hm & Hcad & Hfin).
  rewrite stopping_frame in Hcad, Hfin.
  assert (Hp : processed (metrics (finally E (emit (EPrint LStopping) st0))) =
               processed (metrics st0)) by (rewrite Hm; reflexivity).
  repeat split.
  - rewrite Hcad, Hp. exact Hdiv.
  - rewrite Hfin, Hsh. reflexivity.
  - rewrite commit_calls_split, Hcad, Hfin, Hp, Hsh, Nat2Z.inj_add, Hdiv. lia.
Qed.


(** C10: with [commit_every <= 0] no cadence commit is ever issued,
    whatever is polled; a run that has ended, normally or not, has called
    commit once, in the shutdown block. *)
Theorem no_cadence_commit_when_disabled tr :
  commit_every (args E) <= 0 ->
  commits_at Cadence (log (final_state (main E tr))) = 0%nat /\
  match main E tr with
  | Running st => commit_calls (log st) = 0%nat
  | Exited st | Crashed _ st =>
      commit_calls (log st) = 1%nat /\ commits_at Shutdown (log st) = 1%nat
  end.
Proof.
  intros Hc. pose proof (poll_loop_no_commit tr (init E) Hc) as Hno.
  assert (H0 : forall s, commits_at s (log (init E)) = 0%nat).
  { intros s. unfold init, time_time. simpl. destruct s; reflexivity. }
  unfold main. destruct (poll_loop E tr (init E)) as [st0|e st0]; simpl in Hno.
  - simpl. rewrite commit_calls_split, !Hno, !H0. auto.
  - destruct e; cbn [final_state];
      rewrite commit_calls_split;
      match goal with
      | |- context [finally E ?x] =>
          destruct (finally_frame x) as (_ & Hcad & Hfin)
      end;
      rewrite ?stopping_frame in Hcad, Hfin;
      rewrite Hcad, Hfin, !Hno, !H0; auto.
Qed.


(** *** Further properties of the loop *)

Lemma maybe_report_log st :
  exists extra, log (maybe_report E st) = log st ++ extra /\
                forallb loop_effect extra = true.
Proof.
  unfold maybe_report, read_clock, time_time. simpl.
  destruct (Qle_bool _ _); simpl.
  - exists [EPrint LMetrics]. auto.
  - exists []. rewrite app_nil_r. auto.
Qed.

Lemma body_log p st :
  exists extra, log (flow_state (body E p st)) = log st ++ extra /\
                forallb loop_effect extra = true.
Proof.
  assert (Hnil : exists extra, log st = log st ++ extra /\
                               forallb loop_effect extra = true)
    by (exists []; rewrite app_nil_r; auto).
  destruct p as [|m|]; simpl; auto.
  destruct (msg_error m); [exists [EPrint LError]; auto|].
  destruct (from_option (loads E) None (msg_value m)) as [v|];
    [|exists [EPrint LError]; auto].
  destruct v; simpl; auto.
  unfold maybe_commit. destruct (cadence_due _).
  - destruct (commit_raises _ _); simpl.
    + exists [EPrint LEvent; ECommit Cadence].
      rewrite account_log, <- app_assoc. auto.
    + destruct (maybe_report_log
                  (emit (ECommit Cadence) (emit (EPrint LEvent) (account E d st))))
        as (x & Hx & Hok).
      exists ([EPrint LEvent; ECommit Cadence] ++ x). rewrite Hx. simpl.
      rewrite account_log, <- !app_assoc. auto.
  - simpl.
    destruct (maybe_report_log (emit (EPrint LEvent) (account E d st)))
      as (x & Hx & Hok).
    exists (EPrint LEvent :: x). rewrite Hx. simpl.
    rewrite account_log, <- !app_assoc. auto.
Qed.

Lemma poll_loop_log tr st :
  exists extra, log (flow_state (poll_loop E tr st)) = log st ++ extra /\
                forallb loop_effect extra = true.
Proof.
  revert st. induction tr as [|p tr IH]; intros st; simpl.
  - exists []. rewrite app_nil_r. auto.
  - destruct (body_log p st) as (x & Hx & Hxe).
    destruct (body E p st) as [st1|e st1]; simpl in Hx.
    + destruct (IH st1) as (y & Hy & Hye). exists (x ++ y).
      rewrite Hy, Hx, app_assoc, forallb_app, Hxe, Hye. auto.
    + exists x. auto.
Qed.

Lemma body_counts p st :
  let st' := flow_state (body E p st) in
  processed (metrics st) <= processed (metrics st') /\
  errors (metrics st) <= errors (metrics st') /\
  processed (metrics st') + errors (metrics st') =
    processed (metrics st) + errors (metrics st) +
    (if is_message p then 1 else 0).
Proof.
  cbv zeta. destruct p as [|m|]; simpl; try lia.
  destruct (msg_error m); [simpl; lia|].
  destruct (from_option (loads E) None (msg_value m)) as [v|]; [|simpl; lia].
  destruct v; simpl; try lia.
  unfold maybe_commit. destruct (cadence_due _).
  - destruct (commit_raises _ _); simpl;
      rewrite ?maybe_report_metrics; simpl;
      rewrite account_processed, account_errors; lia.
  - simpl. rewrite maybe_report_metrics. simpl.
    rewrite account_processed, account_errors. lia.
Qed.

Lemma main_running tr st :
  main E tr = Running st -> poll_loop E tr (init E) = Pending st.
Proof.
  unfold main. destruct (poll_loop E tr (init E)) as [st0|[] st0];
    intros H; try discriminate. congruence.
Qed.

Lemma poll_loop_counts tr st st' :
  poll_loop E tr st = Pending st' ->
  processed (metrics st') + errors (metrics st') =
    processed (metrics st) + errors (metrics st) + Z.of_nat (polled_messages tr).
Proof.
  revert st. induction tr as [|p tr IH]; intros st Hrun; simpl in Hrun.
  - inversion Hrun; subst. unfold polled_messages. simpl. lia.
  - pose proof (body_counts p st) as (_ & _ & Hsum).
    destruct (body E p st) as [st1|e st1]; [|discriminate].
    simpl in Hsum. rewrite (IH st1 Hrun), Hsum.
    unfold polled_messages. simpl. destruct (is_message p); simpl; lia.
Qed.

(** X1: broker errors and undecodable payloads are counted and skipped:
    over polls that bring nothing else the loop goes on, [errors] grows by
    the number of such records, one error line is printed for each, and
    nothing else changes: no record is processed, no latency is added, no
    commit is issued and the clock is not even read. *)
Theorem broken_records_only_raise_errors tr st :
  forallb (uneventful E) tr = true ->
  exists st', poll_loop E tr st = Pending st' /\
    processed (metrics st') = processed (metrics st) /\
    latency_total_ms (metrics st') = latency_total_ms (metrics st) /\
    errors (metrics st') = errors (metrics st) + Z.of_nat (broken_records E tr) /\
    log st' = log st ++ repeat (EPrint LError) (broken_records E tr) /\
    clock st' = clock st /\ last_report st' = last_report st.
Proof.
  revert st. induction tr as [|p tr IH]; intros st Hall.
  - exists st. unfold broken_records. simpl. rewrite app_nil_r.
    repeat split; lia.
  - simpl in Hall. apply andb_true_iff in Hall as [Hp Htr].
    assert (Hstep : body E p st =
                    Pending (if is_broken E p then count_error st else st)).
    { destruct p as [|m|]; simpl in *; try reflexivity; try discriminate.
      destruct (msg_error m); [reflexivity|].
      destruct (from_option (loads E) None (msg_value m)); [discriminate|].
      reflexivity. }
    simpl. rewrite Hstep.
    destruct (IH (if is_broken E p then count_error st else st) Htr)
      as (st' & Hrun & H1 & H2 & H3 & H4 & H5 & H6).
    exists st'. split; [exact Hrun|].
    unfold broken_records in *. simpl.
    destruct (is_broken E p); simpl in *.
    + rewrite H1, H2, H3, H4, H5, H6, <- app_assoc. simpl.
      repeat split; lia.
    + auto 10.
Qed.

(** X2: every message handed over by [poll] is counted once, as processed
    or as an error; and the stop signal ends the run without touching the
    counters. *)
Theorem every_message_is_counted tr st :
  main E tr = Running st ->
  processed (metrics st) + errors (metrics st) = Z.of_nat (polled_messages tr) /\
  exists st', main E (tr ++ [Interrupted]) = Exited st' /\
              metrics st' = metrics st.
Proof.
  intros Hrun. apply main_running in Hrun. split.
  - rewrite (poll_loop_counts tr (init E) st Hrun).
    unfold init, time_time. simpl. lia.
  - eexists. split.
    + unfold main. rewrite poll_loop_app, Hrun. reflexivity.
    + destruct (finally_frame (emit (EPrint LStopping) st)) as (Hm & _).
      rewrite Hm. reflexivity.
Qed.

(** X3: a payload that decodes to JSON that is no object ends the run:
    the record is counted as processed, [order.get] raises
    [AttributeError], the shutdown block commits, closes and prints the
    summary, and the exception leaves [main]; whatever was polled after it
    is never looked at, and no cadence commit is made for the record. *)
Theorem non_object_payload_ends_the_run tr st m v rest :
  main E tr = Running st ->
  msg_error m = None ->
  from_option (loads E) None (msg_value m) = Some v ->
  is_object v = false ->
  exists st', main E (tr ++ Got m :: rest) = Crashed AttributeError st' /\
    processed (metrics st') = processed (metrics st) + 1 /\
    errors (metrics st') = errors (metrics st) /\
    latency_total_ms (metrics st') = latency_total_ms (metrics st) /\
    log st' = log st ++ shutdown_tail.
Proof.
  intros Hrun Herr Hv Hobj. apply main_running in Hrun.
  eexists. split.
  - unfold main. rewrite poll_loop_app, Hrun. simpl. rewrite Herr, Hv.
    destruct v; try discriminate Hobj; reflexivity.
  - unfold finally, read_clock, time_time, shutdown_tail. simpl.
    rewrite <- !app_assoc. repeat split.
Qed.


(** X5: the life of a run, as the log shows it: the subscription comes
    first; the loop only prints error, event and metrics lines and commits
    on the cadence; a run that has ended, by the stop signal or by an
    exception, ends with the final commit, the close of the consumer and
    the summary, in this order, and the "stopping" line is printed only
    for the stop signal. *)
Theorem run_ends_with_commit_close_summary tr :
  exists mid, forallb loop_effect mid = true /\
    match main E tr with
    | Running st =>
        log st = [ESubscribe (topic (args E)); EPrint LSubscribed] ++ mid
    | Exited st =>
        log st = [ESubscribe (topic (args E)); EPrint LSubscribed] ++ mid ++
                 [EPrint LStopping] ++ shutdown_tail
    | Crashed _ st =>
        log st = [ESubscribe (topic (args E)); EPrint LSubscribed] ++ mid ++
                 shutdown_tail
    end.
Proof.
  destruct (poll_loop_log tr (init E)) as (mid & Hlog & Hmid).
  exists mid. split; [exact Hmid|].
  assert (Hinit : log (init E) = [ESubscribe (topic (args E)); EPrint LSubscribed])
    by (unfold init, time_time; reflexivity).
  rewrite Hinit in Hlog. unfold main.
  destruct (poll_loop E tr (init E)) as [st0|e st0]; simpl in Hlog.
  - exact Hlog.
  - destruct e; unfold finally, read_clock, time_time, shutdown_tail; simpl;
      rewrite Hlog; simpl; rewrite <- ?app_assoc; reflexivity.
Qed.

(** X6: a poll that times out is a pure no-op: the [continue] of line 49
    skips the report check too, so dropping the empty polls from a run
    changes nothing of its outcome. *)
Theorem idle_polls_change_nothing tr :
  main E (List.filter not_idle tr) = main E tr.
Proof.
  unfold main.
  assert (H : forall st, poll_loop E (List.filter not_idle tr) st = poll_loop E tr st).
  { induction tr as [|p tr IH]; intros st; [reflexivity|].
    destruct p as [|m|].
    - simpl. apply IH.
    - change (List.filter not_idle (Got m :: tr))
        with (Got m :: List.filter not_idle tr).
      cbn [poll_loop]. destruct (body E (Got m) st); [apply IH | reflexivity].
    - reflexivity. }
  rewrite H. reflexivity.
Qed.

(** X7: how far a run has come, the counters have only grown, and by no
    more than the number of messages polled. *)
Theorem counters_only_grow tr st :
  let st' := flow_state (poll_loop E tr st) in
  processed (metrics st) <= processed (metrics st') /\
  errors (metrics st) <= errors (metrics st') /\
  processed (metrics st') + errors (metrics st') <=
    processed (metrics st) + errors (metrics st) + Z.of_nat (polled_messages tr).
Proof.
  cbv zeta. revert st. induction tr as [|p tr IH]; intros st; simpl.
  - unfold polled_messages. simpl. lia.
  - pose proof (body_counts p st) as (H1 & H2 & H3).
    assert (Hlen : Z.of_nat (polled_messages (p :: tr)) =
                   (if is_message p then 1 else 0) + Z.of_nat (polled_messages tr)).
    { unfold polled_messages. simpl. destruct (is_message p); simpl; lia. }
    destruct (body E p st) as [st1|e st1]; simpl in *.
    + destruct (IH st1) as (H4 & H5 & H6). lia.
    + unfold polled_messages in *. lia.
Qed.


End Facts.

(** The same run, evaluated. *)
Lemma seven_then_stop_run :
  exists st, main (sample_env 3) seven_then_stop = Exited st /\
    processed (metrics st) = 7 /\
    commits_at Cadence (log st) = 2%nat /\
    commit_calls (log st) = 3%nat.
Proof. eexists. vm_compute. repeat split. Qed.




Lemma no_cadence_commit_when_disabled_witness :
  commit_every (args (sample_env 0)) <= 0 /\
  commits_at Cadence
    (log (final_state (main (sample_env 0) seven_then_stop))) = 0%nat.
Proof.
  split; [vm_compute; discriminate|].
  apply (no_cadence_commit_when_disabled (sample_env 0) seven_then_stop).
  vm_compute. discriminate.
Defined.

(** C6 at the payload [{"event_time_ms": true}]: the record is decoded, it
    carries no integer timestamp, and yet the latency total grows by the
    whole epoch time in milliseconds less one. *)
Theorem boolean_event_time_adds_latency :
  let E := sample_env 100 in
  let st := flow_state (body E (record_of payload_true) (init E)) in
  loads E payload_true = Some (PyDict {[ "event_time_ms" := PyBool true ]}) /\
  processed (metrics st) = 1 /\
  (latency_total_ms (metrics st) == inject_Z 1699999999999)%Q /\
  ~ (latency_total_ms (metrics st) == latency_total_ms (metrics (init E)))%Q.
Proof.
  cbv zeta. split; [reflexivity|]. split; [reflexivity|].
  split; [reflexivity|]. vm_compute. discriminate.
Qed.

Lemma sample_lag_nonneg every n : (0 <= lag (sample_env every) n)%Q.
Proof. destruct n; simpl; [discriminate | apply Qle_refl]. Qed.

Lemma broken_records_only_raise_errors_witness :
  exists st',
    poll_loop (sample_env 3)
      [Idle; broker_error; record_of "no json"; Idle] (init (sample_env 3))
      = Pending st' /\
    errors (metrics st') = 2 /\ processed (metrics st') = 0.
Proof.
  destruct (broken_records_only_raise_errors (sample_env 3)
              [Idle; broker_error; record_of "no json"; Idle]
              (init (sample_env 3)))
    as (st' & Hrun & Hp & _ & He & _); [reflexivity|].
  exists st'. split; [exact Hrun|]. split; [exact He | exact Hp].
Defined.

Lemma every_message_is_counted_witness :
  processed (metrics (final_state (main (sample_env 3)
     [record_of "{}"; broker_error; Idle; record_of "{}"]))) +
  errors (metrics (final_state (main (sample_env 3)
     [record_of "{}"; broker_error; Idle; record_of "{}"]))) = 3.
Proof.
  apply (every_message_is_counted (sample_env 3)
           [record_of "{}"; broker_error; Idle; record_of "{}"]).
  vm_compute. reflexivity.
Defined.

Lemma non_object_payload_ends_the_run_witness :
  exists st',
    main (sample_env 3) ([record_of "{}"] ++ record_of "[]" :: [record_of "{}"])
      = Crashed AttributeError st' /\
    processed (metrics st') = 2.
Proof.
  destruct (non_object_payload_ends_the_run (sample_env 3) [record_of "{}"]
              (final_state (main (sample_env 3) [record_of "{}"]))
              {| msg_error := None; msg_value := Some "[]"; msg_offset := 0;
                 msg_partition := 0 |}
              (PyList []) [record_of "{}"])
    as (st' & Hrun & Hp & _);
    [vm_compute; reflexivity | reflexivity | reflexivity | reflexivity |].
  exists st'. split; [exact Hrun | exact Hp].
Defined.



End TrackerFacts.

(** * Properties of the producers *)

Module ProducerFacts.

Import Producer.

Local Open Scope Q_scope.

Lemma acks_app l1 l2 : acks (l1 ++ l2) = (acks l1 + acks l2)%nat.
Proof. unfold acks. rewrite List.filter_app, List.length_app. reflexivity. Qed.

Lemma nacks_app l1 l2 : nacks (l1 ++ l2) = (nacks l1 + nacks l2)%nat.
Proof. unfold nacks. rewrite List.filter_app, List.length_app. reflexivity. Qed.

Lemma attempted_app l1 l2 : attempted (l1 ++ l2) = attempted l1 ++ attempted l2.
Proof.
  induction l1 as [|e l1 IH]; [reflexivity|].
  destruct e; simpl; rewrite IH; reflexivity.
Qed.

Lemma sleeps_app l1 l2 : sleeps (l1 ++ l2) = sleeps l1 ++ sleeps l2.
Proof.
  induction l1 as [|e l1 IH]; [reflexivity|].
  destruct e; simpl; rewrite IH; reflexivity.
Qed.

Lemma reports_attempt_nothing l :
  forallb is_report_effect l = true -> attempted l = [] /\ sleeps l = [].
Proof.
  induction l as [|e l IH]; [auto|]. simpl. intros H.
  apply andb_true_iff in H as [He Hl]. destruct (IH Hl) as [Ha Hs].
  destruct e as [| | | | | | |[]]; try discriminate; auto.
Qed.

(** Run the straight-line part of a computation. *)
Ltac exec :=
  cbv beta iota zeta delta
    [mbind mret M_bind M_ret emit read_clock time_time should_stop sleep
     next_reports with_metrics with_clock with_inflight with_log
     count_ok count_failed set_next_send_time set_last_report bump_produced];
  cbn [metrics clock heads attempts pumps inflight log now ticks fst snd
       sent_ok sent_error ack_latency_total_ms
       start last_report next_send_time produced].

Ltac exec_in H :=
  cbv beta iota zeta delta
    [mbind mret M_bind M_ret emit read_clock time_time should_stop sleep
     next_reports with_metrics with_clock with_inflight with_log
     count_ok count_failed set_next_send_time set_last_report bump_produced]
    in H;
  cbn [metrics clock heads attempts pumps inflight log now ticks fst snd
       sent_ok sent_error ack_latency_total_ms
       start last_report next_send_time produced] in H.

Section Facts.

Variable E : Env.

Lemma pumped_refl w : pumped E w w.
Proof.
  split; auto; try reflexivity; try lia.
  - exists []. rewrite app_nil_r. unfold acks, nacks. simpl. repeat split; lia.
  - intros _. apply Qle_refl.
  - intros _ Ht. split; [exact Ht | apply Qle_refl].
Qed.

Lemma pumped_trans w1 w2 w3 : pumped E w1 w2 -> pumped E w2 w3 -> pumped E w1 w3.
Proof.
  intros [Hh1 Ha1 (x1 & Hl1 & Hr1 & Ho1 & He1 & Hq1) Ht1 Hm1 Hs1 Hz1]
         [Hh2 Ha2 (x2 & Hl2 & Hr2 & Ho2 & He2 & Hq2) Ht2 Hm2 Hs2 Hz2].
  split; try congruence; try lia.
  - exists (x1 ++ x2). rewrite Hl2, Hl1, <- app_assoc, forallb_app, Hr1, Hr2.
    rewrite acks_app, nacks_app. repeat split; lia.
  - intros Hlag. apply Qle_trans with (now (clock w2)); auto.
  - intros Hlag. rewrite Hs2, Hs1; [reflexivity | exact Hlag |].
    intros n Hn. apply Hlag. lia.
  - intros Hlag Htm. destruct (Hz1 Hlag Htm) as [Htm2 Hle1].
    destruct (Hz2 Hlag Htm2) as [Htm3 Hle2]. split; [exact Htm3 | lra].
Qed.

(** One report: the message leaves the queue and the callback runs. *)
Lemma report_pumped d f w :
  inflight w !! slot d = Some f ->
  pumped E w
    (snd ((emit (EReport (key f) (failed d));;
           delivery_report E (err d) (started_at f))
            (with_inflight (delete (slot d) (inflight w)) w))).
Proof.
  intros Hf.
  assert (Hlen : (length (delete (slot d) (inflight w)) + 1 = length (inflight w))%nat).
  { rewrite length_delete by eauto.
    apply lookup_lt_Some in Hf. lia. }
  unfold failed, delivery_report. destruct (err d) as [msg|]; exec.
  - split; exec; auto; try reflexivity; try lia.
    + exists [EReport (key f) true; EPrint LError].
      rewrite <- app_assoc. unfold acks, nacks. simpl. repeat split; lia.
    + intros _. apply Qle_refl.
    + intros _ Htm. unfold timely in *. exec.
      split; [apply Forall_delete; exact Htm | apply Qle_refl].
  - split; exec; auto; try lia.
    + exists [EReport (key f) false]. unfold acks, nacks. simpl.
      repeat split; lia.
    + intros Hlag. specialize (Hlag (ticks (clock w))). lra.
    + intros Hlag. rewrite (Hlag (ticks (clock w))) by lia. lra.
    + intros Hlag Htm. unfold timely in *. exec.
      pose proof (Hlag (ticks (clock w))) as Hl0.
      pose proof (Forall_lookup_1 _ _ _ _ Htm Hf) as Hs. simpl in Hs.
      split.
      * apply Forall_delete. eapply Forall_impl; [exact Htm|].
        intros g Hg. simpl in Hg. lra.
      * assert (0 <= (now (clock w) + lag E (ticks (clock w)) - started_at f) * 1000)
          by (apply Qmult_le_0_compat; lra).
        lra.
Qed.

Lemma serve_pumped ds w : pumped E w (snd (serve E ds w)).
Proof.
  revert w. induction ds as [|d ds IH]; intros w; simpl.
  - apply pumped_refl.
  - destruct (inflight w !! slot d) as [f|] eqn:Hf; [|apply IH].
    pose proof (report_pumped d f w Hf) as Hstep.
    unfold mbind, M_bind in *.
    destruct (emit (EReport (key f) (failed d))
                (with_inflight (delete (slot d) (inflight w)) w)) as [u w1].
    destruct (delivery_report E (err d) (started_at f) w1) as [u' w2].
    simpl in Hstep. eapply pumped_trans; [exact Hstep | apply IH].
Qed.


(** *** The event factories *)

Lemma create_order_spec w :
  exists o, create_order E w = (o, snd (read_clock E w)) /\
            order_id o = d_uuid (draw E (attempts w)).
Proof.
  unfold create_order, next_draw. exec. eexists. split; reflexivity.
Qed.

Lemma corrupt_other m (o : gmap string pyval) (k : string) :
  k <> "unit_price" -> k <> "quantity" -> k <> "invalid_mode" ->
  corrupt m o !! k = o !! k.
Proof.
  intros Hp Hq Hm. unfold corrupt.
  rewrite lookup_insert_ne by congruence.
  repeat match goal with
  | |- context [String.eqb ?a ?b] => destruct (String.eqb a b)
  end;
  rewrite ?lookup_delete_ne, ?lookup_insert_ne by congruence; reflexivity.
Qed.

Lemma corrupt_order_id m o : order_id (corrupt m o) = order_id o.
Proof.
  unfold order_id. rewrite corrupt_other by discriminate. reflexivity.
Qed.

Lemma make_order_spec w :
  exists o, make_order E w = (o, snd (read_clock E w)) /\
            order_id o = turn_key E w.
Proof.
  unfold make_order, turn_key. destruct (script E).
  - apply create_order_spec.
  - destruct (create_order_spec w) as (o & Ho & Hk).
    unfold create_invalid_order, next_draw. unfold mbind, M_bind, mret, M_ret.
    rewrite Ho. eexists. split; [reflexivity|].
    rewrite corrupt_order_id. exact Hk.
Qed.

Lemma Qlt_bool_iff a b : Qlt_bool a b = true <-> a < b.
Proof.
  unfold Qlt_bool. rewrite negb_true_iff. split.
  - intros H. apply Qnot_le_lt. intros Hle.
    apply Qle_bool_iff in Hle. congruence.
  - intros H. destruct (Qle_bool b a) eqn:Hb; [|reflexivity].
    apply Qle_bool_iff in Hb. lra.
Qed.

Lemma Qlt_bool_false a b : Qlt_bool a b = false -> b <= a.
Proof.
  unfold Qlt_bool. rewrite negb_false_iff. apply Qle_bool_iff.
Qed.

(** Replace every lag by a non-negative unknown. *)
Ltac lags_nonneg H :=
  repeat match goal with
  | |- context [lag ?E ?n] =>
      let x := fresh "x" in
      pose proof (H n); set (x := lag E n) in *; clearbody x
  | _ : context [lag ?E ?n] |- _ =>
      let x := fresh "x" in
      pose proof (H n); set (x := lag E n) in *; clearbody x
  end.

(** Replace every lag by zero, for readings after the first. *)
Ltac lags_zero H :=
  repeat match goal with
  | |- context [lag ?E ?n] =>
      let x := fresh "x" in
      let Hx := fresh "Hx" in
      assert (Hx : lag E n == 0) by (apply H; lia);
      set (x := lag E n) in *; clearbody x
  | _ : context [lag ?E ?n] |- _ =>
      let x := fresh "x" in
      let Hx := fresh "Hx" in
      assert (Hx : lag E n == 0) by (apply H; lia);
      set (x := lag E n) in *; clearbody x
  end.

(** The queue and the metrics are as in [w0], only later. *)
Lemma later_settles (w0 w' : World) :
  inflight w' = inflight w0 -> metrics w' = metrics w0 ->
  ((forall n, 0 <= lag E n) -> now (clock w0) <= now (clock w')) ->
  settles E w0 w'.
Proof.
  intros Hq Hm Hnow Hlag Htm. specialize (Hnow Hlag). unfold timely in *.
  rewrite Hq, Hm. split; [|apply Qle_refl].
  eapply Forall_impl; [exact Htm|]. intros g Hg. simpl in Hg. lra.
Qed.

Lemma settles_trans w1 w2 w3 :
  settles E w1 w2 -> settles E w2 w3 -> settles E w1 w3.
Proof.
  intros H12 H23 Hlag Htm. destruct (H12 Hlag Htm) as [Htm2 Hle1].
  destruct (H23 Hlag Htm2) as [Htm3 Hle2]. split; [exact Htm3 | lra].
Qed.

Lemma iteration_turn l w :
  turn E l w (fst (iteration E l w)) (snd (iteration E l w)).
Proof.
  unfold iteration, poll, produce, pace, report. exec.
  destruct (stop_seen E (heads w)) eqn:Hstop.
  { simpl. apply turn_break; auto.
    - split; simpl; try lia; try lra; intros; lra.
    - apply later_settles; auto. intros _. apply Qle_refl. }
  exec.
  match goal with |- context [if ?c then _ else _] => destruct c eqn:Hdl end.
  { exec. apply turn_break; auto.
    - split; exec; try lia.
      + intros H. lags_nonneg H. lra.
      + intros H. lags_zero H. lra.
    - apply later_settles; auto. exec. intros H. lags_nonneg H. lra. }
  match goal with |- context [if ?c then _ else _] => destruct c eqn:Hmax end.
  { exec. apply turn_break; auto.
    - split; exec; try lia.
      + intros H. lags_nonneg H. lra.
      + intros H. lags_zero H. lra.
    - apply later_settles; auto. exec. intros H. lags_nonneg H. lra. }
  match goal with |- context [make_order E ?w0] =>
    destruct (make_order_spec w0) as (o & Ho & Hk); rewrite Ho; clear Ho
  end.
  unfold turn_key in Hk. exec. exec_in Hk. rewrite Hk.
  destruct (buffer_full E (attempts w)) eqn:Hfull; exec.
  - match goal with |- context [serve E ?ds ?w0] =>
      pose proof (serve_pumped ds w0) as Hp; destruct (serve E ds w0) as [u w1]
    end.
    exec_in Hp.
    destruct Hp as [Hh Ha (extra & Hl & Hr & Hok & Herr & Hq) Ht Hm Hs Hz].
    exec_in Hh. exec_in Ha. exec_in Hl. exec_in Hok. exec_in Herr. exec_in Hq.
    exec_in Ht. exec_in Hm. exec_in Hs.
    exec. apply turn_rejected with (extra := extra); auto.
    + rewrite Hl, <- !app_assoc. reflexivity.
    + split; auto. lia.
    + split; try lia.
      * intros H. specialize (Hm H). lags_nonneg H. lra.
      * intros H. rewrite Hs by (intros n Hn; apply H; lia). lags_zero H. lra.
    + eapply settles_trans; [|exact Hz].
      apply later_settles; auto. exec. intros H. lags_nonneg H. lra.
  - match goal with |- context [serve E ?ds ?w0] =>
      pose proof (serve_pumped ds w0) as Hp; destruct (serve E ds w0) as [u w1]
    end.
    exec_in Hp.
    destruct Hp as [Hh Ha (extra & Hl & Hr & Hok & Herr & Hq) Ht Hm Hs Hz].
    exec_in Hh. exec_in Ha. exec_in Hl. exec_in Hok. exec_in Herr. exec_in Hq.
    exec_in Ht. exec_in Hm. exec_in Hs.
    rewrite length_app in Hq. simpl in Hq. exec.
    cbn [next_send_time set_next_send_time bump_produced].
    set (nst := next_send_time l + 1 / events_per_second (args E)).
    set (t := now (clock w1) + lag E (ticks (clock w1))).
    assert (Hlog : log w1 =
      log w ++ [ESubmit (d_uuid (draw E (attempts w))) (dumps E o); EPoll 0] ++ extra)
      by (rewrite Hl, <- !app_assoc; reflexivity).
    assert (Htm : (forall n, 0 <= lag E n) -> now (clock w) <= t).
    { intros H. specialize (Hm H). subst t. lags_nonneg H. lra. }
    assert (Hti : (forall n, (1 <= n)%nat -> lag E n == 0) ->
                  (1 <= ticks (clock w))%nat -> t == now (clock w)).
    { intros H H1. subst t. rewrite Hs by (intros n Hn; apply H; lia).
      lags_zero H. lra. }
    assert (Hset : settles E w w1).
    { eapply settles_trans; [|exact Hz].
      intros Hlag Htimely. unfold timely in *. exec.
      split; [|apply Qle_refl]. apply Forall_app. split.
      - eapply Forall_impl; [exact Htimely|]. intros g Hg. simpl in Hg.
        lags_nonneg Hlag. lra.
      - repeat constructor. simpl. apply Qle_refl. }
    clear Hz.
    destruct (Qlt_bool 0 (nst - t)) eqn:Hsl; exec;
      cbn [last_report set_next_send_time bump_produced];
      match goal with |- context [if ?c then _ else _] => destruct c eqn:Hrep end;
      exec.
    + apply turn_accepted with (v := dumps E o) (extra := extra)
        (sl := [ESleep (nst - t)]) (told := [EPrint LMetrics]) (t := t);
        auto; exec; try lia.
      * rewrite Hlog, <- !app_assoc. reflexivity.
      * split; auto.
      * apply paced_sleep; exec.
        -- apply Qlt_bool_iff. exact Hsl.
        -- intros H. clear - H. lags_nonneg H. lra.
        -- intros H. clear - H. lags_zero H. lra.
      * eapply settles_trans; [exact Hset|]. apply later_settles; auto. exec.
        apply Qlt_bool_iff in Hsl. intros H. subst t. clear - H Hsl.
        lags_nonneg H. lra.
    + apply turn_accepted with (v := dumps E o) (extra := extra)
        (sl := [ESleep (nst - t)]) (told := []) (t := t);
        auto; exec; try lia.
      * rewrite Hlog, <- !app_assoc, app_nil_r. reflexivity.
      * split; auto.
      * apply paced_sleep; exec.
        -- apply Qlt_bool_iff. exact Hsl.
        -- intros H. clear - H. lags_nonneg H. lra.
        -- intros H. clear - H. lags_zero H. lra.
      * eapply settles_trans; [exact Hset|]. apply later_settles; auto. exec.
        apply Qlt_bool_iff in Hsl. intros H. subst t. clear - H Hsl.
        lags_nonneg H. lra.
    + apply turn_accepted with (v := dumps E o) (extra := extra)
        (sl := []) (told := [EPrint LMetrics]) (t := t);
        auto; exec; try lia.
      * rewrite Hlog, <- !app_assoc. reflexivity.
      * split; auto.
      * apply paced_reset; exec.
        -- apply Qlt_bool_false. exact Hsl.
        -- intros H. clear - H. subst t. lags_nonneg H. lra.
      * eapply settles_trans; [exact Hset|]. apply later_settles; auto. exec.
        intros H. subst t. clear - H. lags_nonneg H. lra.
    + apply turn_accepted with (v := dumps E o) (extra := extra)
        (sl := []) (told := []) (t := t);
        auto; exec; try lia.
      * rewrite Hlog, !app_nil_r. reflexivity.
      * split; auto.
      * apply paced_reset; exec.
        -- apply Qlt_bool_false. exact Hsl.
        -- intros H. clear - H. subst t. lags_nonneg H. lra.
      * eapply settles_trans; [exact Hset|]. apply later_settles; auto. exec.
        intros H. subst t. clear - H. lags_nonneg H. lra.
Qed.

(** *** The loop *)

Lemma paced_quiet nst t w' sl d :
  paced E nst t w' sl d ->
  attempted sl = [] /\ acks sl = 0%nat /\ nacks sl = 0%nat.
Proof. intros [ | ]; repeat split. Qed.

Lemma told_quiet told :
  told = [] \/ told = [EPrint LMetrics] ->
  attempted told = [] /\ acks told = 0%nat /\ nacks told = 0%nat.
Proof. intros [->| ->]; repeat split. Qed.

Lemma turn_attempted l w s w' :
  turn E l w s w' ->
  attempted (log w') =
    attempted (log w) ++
    match s with Break => [] | Again _ => [attempt_of E (attempts w)] end.
Proof.
  intros [w1 _ _ Hl _ _ _
         | w1 extra _ _ Hfull _ Hl [Hr _ _ _] _
         | l1 w1 v extra sl told t _ _ Hfull _ _ _ Hl [Hr _ _ _] Htold _ _ _ Hp].
  - rewrite Hl, app_nil_r. reflexivity.
  - rewrite Hl, attempted_app. simpl.
    destruct (reports_attempt_nothing extra Hr) as [-> _].
    unfold attempt_of, turn_key. rewrite Hfull. reflexivity.
  - rewrite Hl, attempted_app. simpl. rewrite !attempted_app.
    destruct (reports_attempt_nothing extra Hr) as [-> _].
    destruct (paced_quiet _ _ _ _ _ Hp) as (-> & _).
    destruct (told_quiet told Htold) as (-> & _).
    unfold attempt_of, turn_key. rewrite Hfull. reflexivity.
Qed.

Lemma turn_counted l w s w' : turn E l w s w' -> counted w -> counted w'.
Proof.
  unfold counted.
  intros [w1 _ _ Hl Hm _ _
         | w1 extra _ _ _ _ Hl [_ Hok Herr _] _
         | l1 w1 v extra sl told t _ _ _ _ _ _ Hl [_ Hok Herr _] Htold _ _ _ Hp]
         [Hc1 Hc2].
  - rewrite Hl, Hm. auto.
  - rewrite Hl, Hok, Herr, Hc1, Hc2, acks_app, nacks_app, !Nat2Z.inj_add.
    change (acks ([EBufferError (turn_key E w); EPoll (1 # 10)] ++ extra))
      with (acks extra).
    change (nacks ([EBufferError (turn_key E w); EPoll (1 # 10)] ++ extra))
      with (nacks extra).
    auto.
  - destruct (paced_quiet _ _ _ _ _ Hp) as (_ & Hs1 & Hs2).
    destruct (told_quiet told Htold) as (_ & Ht1 & Ht2).
    rewrite Hl, Hok, Herr, Hc1, Hc2, acks_app, nacks_app, !Nat2Z.inj_add.
    change (acks ([ESubmit (turn_key E w) v; EPoll 0] ++ extra ++ sl ++ told))
      with (acks (extra ++ sl ++ told)).
    change (nacks ([ESubmit (turn_key E w) v; EPoll 0] ++ extra ++ sl ++ told))
      with (nacks (extra ++ sl ++ told)).
    rewrite !acks_app, !nacks_app, Hs1, Hs2, Ht1, Ht2. split; lia.
Qed.

Lemma turn_monotone l w s w' :
  turn E l w s w' ->
  (sent_ok (metrics w) <= sent_ok (metrics w'))%Z /\
  (sent_error (metrics w) <= sent_error (metrics w'))%Z.
Proof.
  intros [w1 _ _ _ Hm _ _
         | w1 extra _ _ _ _ _ [_ Hok Herr _] _
         | l1 w1 v extra sl told t _ _ _ _ _ _ _ [_ Hok Herr _] _ _ _ _ _].
  - rewrite Hm. lia.
  - lia.
  - lia.
Qed.

Lemma turn_settles l w s w' : turn E l w s w' -> settles E w w'.
Proof. intros Ht. destruct Ht; assumption. Qed.

Lemma submitted_app l1 l2 : submitted (l1 ++ l2) = submitted l1 ++ submitted l2.
Proof.
  unfold submitted. rewrite attempted_app, List.filter_app, map_app. reflexivity.
Qed.

Lemma turn_tallied l w s w' :
  turn E l w s w' -> tallied E l w ->
  tallied E (match s with Break => l | Again l' => l' end) w'.
Proof.
  intros Ht [Ha Hp]. pose proof (turn_attempted l w s w' Ht) as Hatt.
  unfold tallied, submitted. rewrite Hatt, Ha.
  destruct Ht as [w1 _ Hn _ _ _ _
         | w1 extra _ _ Hfull Hn _ _ _
         | l1 w1 v extra sl told t _ _ Hfull Hn Hpr _ _ _ _ _ _ _ _].
  - rewrite Hn, app_nil_r. split; [reflexivity|].
    rewrite Hp. unfold submitted. rewrite Ha. reflexivity.
  - rewrite Hn, seq_S, map_app. split; [reflexivity|].
    rewrite List.filter_app, map_app, length_app. simpl.
    unfold attempt_of at 2. rewrite Hfull. simpl.
    rewrite Hp. unfold submitted. rewrite Ha. simpl. lia.
  - rewrite Hn, seq_S, map_app. split; [reflexivity|].
    rewrite List.filter_app, map_app, length_app. simpl.
    unfold attempt_of at 2. rewrite Hfull. simpl.
    rewrite Hpr, Hp. unfold submitted. rewrite Ha. simpl. lia.
Qed.

(** An invariant of the turns is an invariant of the loop. *)
Lemma loop_preserves (I : Locals -> World -> Prop) :
  (forall l w s w', I l w -> turn E l w s w' ->
     I (match s with Break => l | Again l' => l' end) w') ->
  forall fuel l w l' w',
    I l w -> loop E fuel l w = (Some l', w') -> I l' w'.
Proof.
  intros Hstep. induction fuel as [|fuel IH]; intros l w l' w' HI Hrun.
  - discriminate.
  - simpl in Hrun. unfold mbind, M_bind in Hrun.
    pose proof (iteration_turn l w) as Ht.
    destruct (iteration E l w) as [[|l1] w1]; simpl in Ht.
    + inversion Hrun; subst. exact (Hstep _ _ _ _ HI Ht).
    + exact (IH _ _ _ _ (Hstep _ _ _ _ HI Ht) Hrun).
Qed.

(** *** [main] around the loop *)

Lemma main_unfold fuel :
  Qle_bool (events_per_second (args E)) 0 = false ->
  main E fuel =
  match loop E fuel (init_locals (start_time E)) (loop_world E) with
  | (None, w) => Unfinished w
  | (Some l, w3) =>
      let w4 := snd (flush E 10 w3) in
      Returned (fmax (fst (read_clock E w4) - start l) (1 # 1000)) l
               (snd (emit (EPrint LSummary) (snd (read_clock E w4))))
  end.
Proof.
  intros Hr. unfold main, start_time, loop_world. rewrite Hr. exec.
  match goal with |- context [loop E fuel ?l ?w0] =>
    destruct (loop E fuel l w0) as [[l'|] w3]
  end; [|reflexivity].
  destruct (flush E 10 w3) as [u w4]. reflexivity.
Qed.

Lemma flush_pumped t w :
  pumped E (snd (next_reports E (snd (emit (EFlush t) w)))) (snd (flush E t w)).
Proof.
  unfold flush. exec.
  match goal with |- context [serve E ?ds ?w0] =>
    pose proof (serve_pumped ds w0) as Hp; destruct (serve E ds w0) as [u w1]
  end.
  exact Hp.
Qed.

Lemma flush_frame t w :
  let w' := snd (flush E t w) in
  attempts w' = attempts w /\
  attempted (log w') = attempted (log w) /\
  (counted w -> counted w') /\
  passes E w w' /\
  settles E w w'.
Proof.
  cbv zeta. destruct (flush_pumped t w) as
    [Hh Ha (extra & Hl & Hr & Hok & Herr & Hq) Ht Hm Hs Hz].
  exec_in Ha. exec_in Hl. exec_in Hok. exec_in Herr. exec_in Ht. exec_in Hm.
  exec_in Hs.
  destruct (reports_attempt_nothing extra Hr) as [Hatt _].
  assert (Hset : settles E w (snd (flush E t w))).
  { eapply settles_trans; [|exact Hz].
    apply later_settles; auto. intros _. apply Qle_refl. }
  split; [exact Ha|]. split; [|split; [|split; [|exact Hset]]].
  - rewrite Hl, !attempted_app, Hatt. simpl. rewrite !app_nil_r. reflexivity.
  - intros [Hc1 Hc2]. split.
    + rewrite Hok, Hl, Hc1, !acks_app, !Nat2Z.inj_add.
      change (acks [EFlush t]) with 0%nat. lia.
    + rewrite Herr, Hl, Hc2, !nacks_app, !Nat2Z.inj_add.
      change (nacks [EFlush t]) with 0%nat. lia.
  - split; auto.
Qed.

Lemma loop_world_facts :
  tallied E (init_locals (start_time E)) (loop_world E) /\
  counted (loop_world E) /\
  now (clock (loop_world E)) = start_time E /\
  ticks (clock (loop_world E)) = 1%nat.
Proof. repeat split. Qed.

Lemma main_returned fuel e l w :
  main E fuel = Returned e l w ->
  exists w3,
    loop E fuel (init_locals (start_time E)) (loop_world E) = (Some l, w3) /\
    e = fmax (fst (read_clock E (snd (flush E 10 w3))) - start l) (1 # 1000) /\
    w = snd (emit (EPrint LSummary) (snd (read_clock E (snd (flush E 10 w3))))).
Proof.
  intros Hrun.
  destruct (Qle_bool (events_per_second (args E)) 0) eqn:Hr.
  { unfold main in Hrun. rewrite Hr in Hrun. discriminate. }
  rewrite (main_unfold fuel Hr) in Hrun.
  destruct (loop E fuel (init_locals (start_time E)) (loop_world E))
    as [[l'|] w3]; [|discriminate].
  cbv zeta in Hrun. inversion Hrun; subst. exists w3. repeat split.
Qed.

(** *** The delivery callback *)


(** *** The pacer *)

Lemma sleeps_of_turn_log (pre : list Effect) e1 e2 extra sl told :
  forallb is_report_effect extra = true ->
  told = [] \/ told = [EPrint LMetrics] ->
  sleeps [e1; e2] = [] ->
  sleeps (pre ++ [e1; e2] ++ extra ++ sl ++ told) = sleeps pre ++ sleeps sl.
Proof.
  intros Hr Htold He. rewrite !sleeps_app, He.
  destruct (reports_attempt_nothing extra Hr) as [_ ->].
  destruct Htold as [-> | ->]; simpl; rewrite app_nil_r; reflexivity.
Qed.


(** *** Termination *)

Lemma turn_goes_on l w s w' :
  count_bounded E -> (produced l < max_events (args E))%Z ->
  turn E l w s w' -> exists l', s = Again l'.
Proof.
  intros (Hstop & Hdur & Hmax) Hlt Ht. destruct Ht as [w1 Hwhy| |]; eauto.
  exfalso. destruct Hwhy as [Hy|[Hy|Hy]].
  - rewrite Hstop in Hy. discriminate.
  - unfold deadline_reached in Hy. apply andb_true_iff in Hy as [Hy _].
    apply Z.ltb_lt in Hy. lia.
  - unfold max_reached in Hy. apply andb_true_iff in Hy as [_ Hy].
    apply Z.leb_le in Hy. lia.
Qed.

Lemma turn_ends l w s w' :
  count_bounded E -> (max_events (args E) <= produced l)%Z ->
  turn E l w s w' -> s = Break.
Proof.
  intros (_ & _ & Hmax) Hge Ht.
  assert (Hr : max_reached E l = true).
  { unfold max_reached. apply andb_true_iff. split;
      [apply Z.ltb_lt | apply Z.leb_le]; lia. }
  destruct Ht; [reflexivity | congruence | congruence].
Qed.

Lemma loop_step fuel l w :
  loop E (S fuel) l w =
  match iteration E l w with
  | (Break, w') => (Some l, w')
  | (Again l', w') => loop E fuel l' w'
  end.
Proof.
  simpl. unfold mbind, M_bind. destruct (iteration E l w) as [[|l'] w']; reflexivity.
Qed.

Lemma loop_terminates rem :
  count_bounded E -> frees_on_retry E ->
  forall fuel l w,
    (produced l <= max_events (args E))%Z ->
    Z.to_nat (max_events (args E) - produced l) = rem ->
    (2 * rem + 1 <= fuel)%nat ->
    exists l' w', loop E fuel l w = (Some l', w') /\
                  produced l' = max_events (args E).
Proof.
  intros Hb Hfree. induction rem as [|rem IH]; intros fuel l w Hle Hrem Hfuel.
  - destruct fuel as [|fuel]; [lia|]. rewrite loop_step.
    pose proof (iteration_turn l w) as Ht.
    destruct (iteration E l w) as [s w1]. simpl in Ht.
    rewrite (turn_ends l w s w1 Hb ltac:(lia) Ht). exists l, w1. split; [reflexivity|lia].
  - destruct fuel as [|fuel]; [lia|]. rewrite loop_step.
    pose proof (iteration_turn l w) as Ht.
    destruct (iteration E l w) as [s w1]. simpl in Ht.
    destruct (turn_goes_on l w s w1 Hb ltac:(lia) Ht) as (l1 & ->).
    inversion Ht as
      [
      | w2 extra _ _ Hfull Hn _ _ _
      | l2 w2 v extra sl told t _ _ _ _ Hpr _ _ _ _ _ _ _ _]; subst.
    + destruct fuel as [|fuel]; [lia|]. rewrite loop_step.
      pose proof (iteration_turn l1 w1) as Ht'.
      destruct (iteration E l1 w1) as [s' w3]. simpl in Ht'.
      destruct (turn_goes_on l1 w1 s' w3 Hb ltac:(lia) Ht') as (l3 & ->).
      inversion Ht' as
        [
        | w4 extra' _ _ Hfull' _ _ _ _
        | l4 w4 v' extra' sl' told' t' _ _ _ _ Hpr' _ _ _ _ _ _ _ _]; subst.
      * rewrite Hn, (Hfree _ Hfull) in Hfull'. discriminate.
      * apply IH; lia.
    + apply IH; lia.
Qed.

(** *** Backpressure *)

Lemma partition_NoDup (l : list (string * bool)) :
  List.NoDup (map fst l) ->
  List.NoDup (map fst (List.filter snd l) ++
         map fst (List.filter (fun a => negb (snd a)) l)).
Proof.
  induction l as [|[k b] l IH]; simpl; intros Hnd; [constructor|].
  apply NoDup_cons_iff in Hnd as [Hk Hnd]. specialize (IH Hnd).
  assert (Hout : ~ In k (map fst (List.filter snd l) ++
                         map fst (List.filter (fun a => negb (snd a)) l))).
  { intros Hin. apply Hk. apply in_app_or in Hin.
    destruct Hin as [Hin|Hin]; apply in_map_iff in Hin as ([k' b'] & <- & Hin);
      apply filter_In in Hin as [Hin _]; apply in_map_iff; exists (k', b'); auto. }
  destruct b; simpl.
  - constructor; assumption.
  - eapply Permutation.Permutation_NoDup;
      [apply Permutation.Permutation_middle | constructor; assumption].
Qed.

Lemma attempts_NoDup n :
  (forall i j, d_uuid (draw E i) = d_uuid (draw E j) -> i = j) ->
  List.NoDup (map fst (map (attempt_of E) (seq 0 n))).
Proof.
  intros Hinj. rewrite map_map. simpl.
  apply NoDup_map_NoDup_ForallPairs; [|apply seq_NoDup].
  intros i j _ _. apply Hinj.
Qed.

Lemma main_completes fuel :
  count_bounded E -> frees_on_retry E ->
  0 < events_per_second (args E) ->
  (2 * Z.to_nat (max_events (args E)) + 1 <= fuel)%nat ->
  exists e l w, main E fuel = Returned e l w /\
                produced l = max_events (args E).
Proof.
  intros Hb Hfree Hr Hfuel.
  assert (Hq : Qle_bool (events_per_second (args E)) 0 = false).
  { destruct (Qle_bool _ 0) eqn:Hq; [|reflexivity].
    apply Qle_bool_iff in Hq. lra. }
  rewrite (main_unfold fuel Hq).
  assert (Hmax : (0 < max_events (args E))%Z) by apply Hb.
  assert (H0 : produced (init_locals (start_time E)) = 0%Z) by reflexivity.
  destruct (loop_terminates (Z.to_nat (max_events (args E))) Hb Hfree fuel
              (init_locals (start_time E)) (loop_world E))
    as (l & w & Hloop & Hp).
  - rewrite H0. lia.
  - rewrite H0. f_equal. lia.
  - exact Hfuel.
  - rewrite Hloop. cbv zeta. eauto.
Qed.

Lemma main_tallied fuel e l w :
  main E fuel = Returned e l w -> tallied E l w.
Proof.
  intros Hrun. destruct (main_returned _ _ _ _ Hrun) as (w3 & Hloop & _ & ->).
  assert (Ht : tallied E l w3).
  { apply (loop_preserves (tallied E)) with (3 := Hloop).
    - intros l0 w0 s w' Hi Ht. exact (turn_tallied l0 w0 s w' Ht Hi).
    - apply loop_world_facts. }
  destruct (flush_frame 10 w3) as (Ha & Hatt & _ & _ & _).
  destruct Ht as [Ht1 Ht2]. unfold tallied, submitted. exec.
  rewrite attempted_app, Hatt, Ha. simpl. rewrite app_nil_r.
  split; [exact Ht1|]. rewrite Ht2. reflexivity.
Qed.

(** C1, as the code has it: when [produce] raises [BufferError] the turn
    ends after a 0.1 s poll with the locals untouched, so the rejected
    submission is not counted in [produced]; the event is not kept: the
    next turn builds its event from the next answers of the factory.  At
    the end of a run the calls of [produce] are, in order, one per event
    built, [produced] is the number of accepted ones, and when the
    factory never repeats an identifier no event is submitted twice and
    no rejected event is submitted at all.  When the buffer frees on
    retry and only [max_events] bounds the run, the run ends with
    [produced = max_events]. *)
Theorem backpressure_builds_a_fresh_event :
  (forall l w,
     stop_seen E (heads w) = false -> deadline_reached E l w = false ->
     max_reached E l = false -> buffer_full E (attempts w) = true ->
     let w' := snd (iteration E l w) in
     fst (iteration E l w) = Again l /\
     attempts w' = S (attempts w) /\
     exists extra,
       log w' = log w ++ [EBufferError (turn_key E w); EPoll (1 # 10)] ++ extra /\
       forallb is_report_effect extra = true) /\
  (forall fuel e l w,
     main E fuel = Returned e l w ->
     attempted (log w) = map (attempt_of E) (seq 0 (attempts w)) /\
     produced l = Z.of_nat (length (submitted (log w))) /\
     ((forall i j, d_uuid (draw E i) = d_uuid (draw E j) -> i = j) ->
      List.NoDup (submitted (log w) ++ rejected (log w)))) /\
  (count_bounded E -> frees_on_retry E -> 0 < events_per_second (args E) ->
   forall fuel, (2 * Z.to_nat (max_events (args E)) + 1 <= fuel)%nat ->
   exists e l w, main E fuel = Returned e l w /\
     produced l = max_events (args E) /\
     length (submitted (log w)) = Z.to_nat (max_events (args E))).
Proof.
  split; [|split].
  - intros l w Hstop Hdl Hmax Hfull. pose proof (iteration_turn l w) as Ht.
    destruct (iteration E l w) as [s w']. simpl in Ht. simpl.
    inversion Ht as
      [w1 Hwhy
      | w1 extra Hs1 Hs2 Hs3 Hn Hl Hrep Hpass
      | l1 w1 v extra sl told t Hs1 Hs2 Hfull'];
      subst.
    + destruct Hwhy as [Hy|[Hy|Hy]]; congruence.
    + repeat split; auto. exists extra. split; [assumption | apply Hrep].
    + congruence.
  - intros fuel e l w Hrun. destruct (main_tallied _ _ _ _ Hrun) as [Ha Hp].
    repeat split; auto.
    intros Hinj. unfold submitted, rejected. apply partition_NoDup.
    rewrite Ha. apply attempts_NoDup, Hinj.
  - intros Hb Hfree Hr fuel Hfuel.
    destruct (main_completes fuel Hb Hfree Hr Hfuel) as (e & l & w & Hrun & Hp).
    exists e, l, w. repeat split; auto.
    destruct (main_tallied _ _ _ _ Hrun) as [_ Hp']. lia.
Qed.

(** *** Elapsed time *)

Lemma period_pos : 0 < events_per_second (args E) -> 0 < period E.
Proof.
  intros Hr. unfold period, Qdiv. rewrite Qmult_1_l.
  apply Qinv_lt_0_compat. exact Hr.
Qed.

Lemma next_tick (p : Z) (u : Q) :
  inject_Z (p + 1) * u == inject_Z p * u + u.
Proof. rewrite inject_Z_plus. ring. Qed.

Lemma turn_on_schedule l w s w' :
  (forall n, 0 <= lag E n) -> 0 < events_per_second (args E) ->
  turn E l w s w' -> on_schedule E l w ->
  on_schedule E (match s with Break => l | Again l' => l' end) w'.
Proof.
  intros Hlag Hr Ht [Hs Hn]. pose proof (period_pos Hr) as Hu.
  unfold on_schedule.
  destruct Ht as
    [w1 _ _ _ _ _ Hpass
    | w1 extra _ _ _ _ _ _ Hpass
    | l1 w1 v extra sl told t _ _ _ _ Hpr Hst _ _ _ _ Htm _ Hp].
  - pose proof (passes_mono _ _ _ Hpass Hlag). split; [assumption | lra].
  - pose proof (passes_mono _ _ _ Hpass Hlag). split; [assumption | lra].
  - rewrite Hpr, Hst, next_tick. specialize (Htm Hlag).
    fold (period E) in Hp.
    set (a := inject_Z (produced l) * period E) in *.
    set (u := period E) in *.
    inversion Hp as [Hpos Hm Hi | t' Hneg Hm]; subst.
    + specialize (Hm Hlag). split; lra.
    + destruct (Hm Hlag) as [H1 H2]. split; lra.
Qed.

Lemma turn_on_time l w s w' :
  instantaneous E -> 0 < events_per_second (args E) ->
  turn E l w s w' -> on_time E l w ->
  on_time E (match s with Break => l | Again l' => l' end) w'.
Proof.
  intros Hi Hr Ht (Hn & Hc & Hk). pose proof (period_pos Hr) as Hu.
  assert (Hstill : forall n, (ticks (clock w) <= n)%nat -> lag E n == 0)
    by (intros n Hle; apply Hi; lia).
  unfold on_time.
  destruct Ht as
    [w1 _ _ _ _ _ Hpass
    | w1 extra _ _ _ _ _ _ Hpass
    | l1 w1 v extra sl told t _ _ _ _ Hpr Hst _ _ _ Htk _ Hti Hp].
  - pose proof (passes_still _ _ _ Hpass Hstill).
    pose proof (passes_ticks _ _ _ Hpass).
    repeat split; [assumption | lra | lia].
  - pose proof (passes_still _ _ _ Hpass Hstill).
    pose proof (passes_ticks _ _ _ Hpass).
    repeat split; [assumption | lra | lia].
  - specialize (Hti Hi Hk). fold (period E) in Hp.
    assert (Hnext : inject_Z (produced l1) * period E ==
                    inject_Z (produced l) * period E + period E)
      by (rewrite Hpr; apply next_tick).
    rewrite Hst, Hnext.
    set (a := inject_Z (produced l) * period E) in *.
    set (u := period E) in *.
    inversion Hp as [Hpos Hm Hid | t' Hneg Hm]; subst.
    + specialize (Hid Hi). repeat split; [lra | lra | lia].
    + exfalso. lra.
Qed.

Lemma fmax_ge a b : a <= fmax a b.
Proof.
  unfold fmax. destruct (Qle_bool a b) eqn:Hb; [|apply Qle_refl].
  apply Qle_bool_iff. exact Hb.
Qed.

Lemma fmax_wd a a' b : a == a' -> fmax a b == fmax a' b.
Proof.
  intros Ha. unfold fmax. rewrite Ha.
  destruct (Qle_bool a' b); [reflexivity | exact Ha].
Qed.

Lemma loop_world_on_time : on_schedule E (init_locals (start_time E)) (loop_world E) /\
                           on_time E (init_locals (start_time E)) (loop_world E).
Proof.
  unfold on_schedule, on_time, init_locals, loop_world, start_time. exec.
  assert (H0 : inject_Z 0 * period E == 0) by (unfold inject_Z; ring).
  repeat split; try rewrite H0; try lra; try lia.
Qed.

(** The time a run takes, against the schedule of its sends. *)
Lemma elapsed_against_schedule fuel e l w :
  0 < events_per_second (args E) ->
  main E fuel = Returned e l w ->
  ((forall n, 0 <= lag E n) -> inject_Z (produced l) * period E <= e) /\
  (instantaneous E -> e == fmax (inject_Z (produced l) * period E) (1 # 1000)).
Proof.
  intros Hr Hrun. destruct (main_returned _ _ _ _ Hrun) as (w3 & Hloop & -> & _).
  destruct (flush_frame 10 w3) as (_ & _ & _ & Hpass & _).
  assert (Hst : start l = start_time E).
  { apply (loop_preserves (fun l _ => start l = start_time E)) with (3 := Hloop);
      [|reflexivity].
    intros l0 w0 s w' Hi Ht. destruct Ht; congruence. }
  split.
  - intros Hlag.
    assert (Hs : on_schedule E l w3).
    { apply (loop_preserves (on_schedule E)) with (3 := Hloop).
      - intros l0 w0 s w' Hi Ht. exact (turn_on_schedule l0 w0 s w' Hlag Hr Ht Hi).
      - apply loop_world_on_time. }
    destruct Hs as [Hs1 Hs2]. pose proof (passes_mono _ _ _ Hpass Hlag) as Hm.
    eapply Qle_trans; [|apply fmax_ge]. exec.
    pose proof (Hlag (ticks (clock (snd (flush E 10 w3))))). lra.
  - intros Hi.
    assert (Hs : on_time E l w3).
    { apply (loop_preserves (on_time E)) with (3 := Hloop).
      - intros l0 w0 s w' Hi0 Ht. exact (turn_on_time l0 w0 s w' Hi Hr Ht Hi0).
      - apply loop_world_on_time. }
    destruct Hs as (Hs1 & Hs2 & Hs3).
    assert (Hstill : forall n, (ticks (clock w3) <= n)%nat -> lag E n == 0)
      by (intros n Hle; apply Hi; lia).
    pose proof (passes_still _ _ _ Hpass Hstill) as Hm.
    pose proof (passes_ticks _ _ _ Hpass) as Hk.
    apply fmax_wd. exec.
    rewrite (Hi (ticks (clock (snd (flush E 10 w3))))) by lia. lra.
Qed.

Lemma never_full_frees :
  (forall i, buffer_full E i = false) -> frees_on_retry E.
Proof. intros H i _. apply H. Qed.

Lemma run_without_backpressure fuel :
  count_bounded E -> (forall i, buffer_full E i = false) ->
  0 < events_per_second (args E) ->
  (2 * Z.to_nat (max_events (args E)) + 1 <= fuel)%nat ->
  exists e l w,
    main E fuel = Returned e l w /\
    produced l = max_events (args E) /\
    ((forall n, 0 <= lag E n) ->
     inject_Z (max_events (args E)) / events_per_second (args E) <= e) /\
    (instantaneous E ->
     e == fmax (inject_Z (max_events (args E)) / events_per_second (args E))
               (1 # 1000)).
Proof.
  intros Hb Hfull Hr Hfuel.
  destruct (main_completes fuel Hb (never_full_frees Hfull) Hr Hfuel)
    as (e & l & w & Hrun & Hp).
  destruct (elapsed_against_schedule fuel e l w Hr Hrun) as [Hlow Hexact].
  assert (Hdiv : inject_Z (produced l) * period E ==
                 inject_Z (max_events (args E)) / events_per_second (args E)).
  { rewrite Hp. unfold period, Qdiv. ring. }
  exists e, l, w. repeat split; auto.
  - intros Hlag. rewrite <- Hdiv. auto.
  - intros Hi. rewrite (Hexact Hi). apply fmax_wd. exact Hdiv.
Qed.

(** *** Startup *)

Lemma turn_log_grows l w s w' :
  turn E l w s w' -> exists extra, log w' = log w ++ extra.
Proof.
  intros [w1 _ _ Hl | w1 extra _ _ _ _ Hl | l1 w1 v extra sl told t _ _ _ _ _ _ Hl].
  - exists []. rewrite app_nil_r. exact Hl.
  - eexists. exact Hl.
  - eexists. exact Hl.
Qed.

Lemma loop_log_grows fuel l w :
  exists extra, log (snd (loop E fuel l w)) = log w ++ extra.
Proof.
  revert l w. induction fuel as [|fuel IH]; intros l w.
  - exists []. simpl. rewrite app_nil_r. reflexivity.
  - rewrite loop_step. pose proof (iteration_turn l w) as Ht.
    destruct (iteration E l w) as [[|l1] w1]; simpl in Ht;
      destruct (turn_log_grows _ _ _ _ Ht) as (x & Hx).
    + exists x. exact Hx.
    + destruct (IH l1 w1) as (y & Hy). exists (x ++ y).
      rewrite Hy, Hx, app_assoc. reflexivity.
Qed.

(** C9: a rate [<= 0] makes [main] raise [ValueError] in the initial
    world, before the client is created or anything else is done, and the
    interpreter exits with status 1; with a rate [> 0] no exception leaves
    [main], whatever the run, and the first thing done is to create the
    client. *)
Theorem rate_checked_at_startup fuel :
  (events_per_second (args E) <= 0 ->
   exists msg, main E fuel = Raised (ValueError msg) world0 /\
               log world0 = [] /\
               exit_status (main E fuel) = Some 1%Z) /\
  (0 < events_per_second (args E) ->
   (forall e w, main E fuel <> Raised e w) /\
   exists rest,
     log (final_world (main E fuel)) =
       ECreateProducer (bootstrap_servers (args E)) :: rest).
Proof.
  split.
  - intros Hr. apply Qle_bool_iff in Hr. unfold main. rewrite Hr.
    eexists. repeat split.
  - intros Hr.
    assert (Hq : Qle_bool (events_per_second (args E)) 0 = false).
    { destruct (Qle_bool _ 0) eqn:Hq; [|reflexivity].
      apply Qle_bool_iff in Hq. lra. }
    rewrite (main_unfold fuel Hq).
    destruct (loop_log_grows fuel (init_locals (start_time E)) (loop_world E))
      as (x & Hx).
    destruct (loop E fuel (init_locals (start_time E)) (loop_world E))
      as [[l|] w3]; cbn [snd] in Hx.
    + split; [discriminate|]. cbv zeta. cbn [final_world].
      destruct (flush_pumped 10 w3) as [_ _ (y & Hy & _) _ _ _ _].
      exec_in Hy. exec. rewrite Hy, Hx. unfold loop_world. exec.
      eexists. reflexivity.
    + split; [discriminate|]. cbn [final_world]. rewrite Hx.
      unfold loop_world. exec. eexists. reflexivity.
Qed.

(** *** The invalid events *)

Lemma choice_invalid_mode i : In (choice "" INVALID_MODES i) INVALID_MODES.
Proof.
  unfold choice. pose proof (Nat.mod_upper_bound i 5 ltac:(lia)) as Hlt.
  change (length INVALID_MODES) with 5%nat.
  destruct (i mod 5)%nat as [|[|[|[|[|n]]]]]; simpl; auto 10. lia.
Qed.

Lemma corrupt_documented mode (o : gmap string pyval) :
  In mode INVALID_MODES -> documented mode o (corrupt mode o).
Proof.
  intros Hin. split; [|split].
  - unfold corrupt. apply lookup_insert_eq.
  - intros k Hp Hq Hm. apply corrupt_other; assumption.
  - simpl in Hin.
    destruct Hin as [<-|[<-|[<-|[<-|[<-|[]]]]]]; unfold corrupt; simpl.
    + left. split; [reflexivity|]. split.
      * rewrite lookup_insert_ne by discriminate. apply lookup_delete_eq.
      * rewrite lookup_insert_ne, lookup_delete_ne by discriminate. reflexivity.
    + right; left. split; [reflexivity|]. split.
      * rewrite lookup_insert_ne by discriminate. apply lookup_delete_eq.
      * rewrite lookup_insert_ne, lookup_delete_ne by discriminate. reflexivity.
    + right; right; left. split; [reflexivity|]. split.
      * rewrite lookup_insert_ne, lookup_delete_ne by discriminate.
        apply lookup_delete_eq.
      * rewrite lookup_insert_ne by discriminate. apply lookup_delete_eq.
    + right; right; right; left. split; [reflexivity|]. split.
      * rewrite lookup_insert_ne by discriminate. apply lookup_insert_eq.
      * rewrite !lookup_insert_ne by discriminate. reflexivity.
    + right; right; right; right. split; [reflexivity|]. split.
      * rewrite lookup_insert_ne by discriminate. apply lookup_insert_eq.
      * rewrite !lookup_insert_ne by discriminate. reflexivity.
Qed.

Lemma create_invalid_order_corrupts mode w :
  fst (create_invalid_order E mode w) =
  corrupt (select_mode mode (d_mode (draw E (attempts w))))
          (fst (create_order E w)).
Proof.
  destruct (create_order_spec w) as (o & Ho & _).
  unfold create_invalid_order, next_draw, mbind, M_bind, mret, M_ret.
  rewrite Ho. reflexivity.
Qed.

(** C8: a valid event carries a quantity and a unit price; built with any
    of the five strategies, named directly or drawn by the random source,
    the invalid event lacks exactly the documented fields or carries the
    documented zero, agrees with the valid event on every other field,
    and is tagged with the strategy. *)
Theorem invalid_modes_as_documented w :
  let o := fst (create_order E w) in
  (exists q p, o !! "quantity" = Some (PyInt q) /\
               o !! "unit_price" = Some (PyFloat p) /\
               o !! "invalid_mode" = None) /\
  Forall (fun mode => documented mode o (fst (create_invalid_order E mode w)))
         INVALID_MODES /\
  (exists mode, In mode INVALID_MODES /\
     mode = choice "" INVALID_MODES (d_mode (draw E (attempts w))) /\
     documented mode o (fst (create_invalid_order E "random" w))).
Proof.
  cbv zeta. split; [|split].
  - unfold create_order, next_draw. exec. eexists _, _. repeat split.
  - assert (Hall : forall mode, In mode INVALID_MODES ->
        documented mode (fst (create_order E w))
                   (fst (create_invalid_order E mode w))).
    { intros mode Hin. rewrite create_invalid_order_corrupts.
      generalize (fst (create_order E w)). intros o.
      assert (Hsel : select_mode mode (d_mode (draw E (attempts w))) = mode).
      { unfold select_mode. simpl in Hin.
        destruct Hin as [<-|[<-|[<-|[<-|[<-|[]]]]]]; reflexivity. }
      rewrite Hsel. apply corrupt_documented, Hin. }
    apply Forall_forall. intros mode Hin. apply Hall.
    apply list_elem_of_In. exact Hin.
  - eexists. split; [apply choice_invalid_mode|]. split; [reflexivity|].
    rewrite create_invalid_order_corrupts.
    generalize (fst (create_order E w)). intros o.
    change (select_mode "random" (d_mode (draw E (attempts w))))
      with (choice "" INVALID_MODES (d_mode (draw E (attempts w)))).
    apply corrupt_documented, choice_invalid_mode.
Qed.

(** ** The events built by [create_order] *)

Lemma choice_In {A} (d : A) (l : list A) (i : nat) :
  l <> [] -> In (choice d l i) l.
Proof.
  intros Hl. unfold choice. apply nth_In. apply Nat.mod_upper_bound.
  destruct l; [congruence | simpl; lia].
Qed.

(** X9: an event has exactly the nineteen fields of the dictionary
    literal, whatever the clock and the random source answer. *)
Theorem order_has_exactly_the_listed_fields w (k : string) :
  is_Some (fst (create_order E w) !! k) <-> In k ORDER_FIELDS.
Proof.
  unfold create_order, next_draw. exec.
  match goal with |- is_Some (list_to_map ?l !! k) <-> _ => set (items := l) end.
  assert (Hkeys : items.*1 = ORDER_FIELDS) by reflexivity.
  rewrite <- Hkeys. clearbody items.
  rewrite <- list_elem_of_In, <- elem_of_dom, dom_list_to_map_L,
    elem_of_list_to_set. reflexivity.
Qed.

(** X10: item and category are those of one row of the catalogue, and the
    payment method, the sales channel and the discount are members of
    their lists. *)
Theorem order_values_come_from_the_catalogues w :
  let o := fst (create_order E w) in
  (exists p, In p PRODUCT_CATALOG /\
     o !! "item" = Some (PyStr (item p)) /\
     o !! "category" = Some (PyStr (category p))) /\
  (exists m, In m PAYMENT_METHODS /\ o !! "payment_method" = Some (PyStr m)) /\
  (exists c, In c SALES_CHANNELS /\ o !! "sales_channel" = Some (PyStr c)) /\
  (exists d, In d DISCOUNTS /\ o !! "discount_pct" = Some (PyInt d)).
Proof.
  cbv zeta. unfold create_order, next_draw. exec.
  set (d := draw E (attempts w)).
  pose proof (choice_In no_product PRODUCT_CATALOG (d_product d)
                ltac:(discriminate)) as Hp.
  pose proof (choice_In "" PAYMENT_METHODS (d_payment d) ltac:(discriminate)) as Hm.
  pose proof (choice_In "" SALES_CHANNELS (d_channel d) ltac:(discriminate)) as Hc.
  pose proof (choice_In 0%Z DISCOUNTS (d_discount d) ltac:(discriminate)) as Hd.
  revert Hp Hm Hc Hd.
  generalize (choice no_product PRODUCT_CATALOG (d_product d)).
  generalize (choice "" PAYMENT_METHODS (d_payment d)).
  generalize (choice "" SALES_CHANNELS (d_channel d)).
  generalize (choice 0%Z DISCOUNTS (d_discount d)).
  intros disc chan pay prod Hp Hm Hc Hd.
  split; [exists prod | split; [exists pay | split; [exists chan | exists disc]]];
    repeat split; assumption || reflexivity.
Qed.

Lemma round_half_even_near (x : Q) :
  x - (1 # 2) <= inject_Z (round_half_even x) /\
  inject_Z (round_half_even x) <= x + (1 # 2).
Proof.
  unfold round_half_even.
  pose proof (Qfloor_le x) as Hlo. pose proof (Qlt_floor x) as Hhi.
  rewrite inject_Z_plus in Hhi. change (inject_Z 1) with 1 in Hhi.
  set (f := Qfloor x) in *.
  destruct (Qcompare (x - inject_Z f) (1 # 2)) eqn:Hc.
  - apply Qeq_alt in Hc.
    destruct (Z.even f);
      [| rewrite inject_Z_plus; change (inject_Z 1) with 1]; lra.
  - apply Qlt_alt in Hc. lra.
  - apply Qgt_alt in Hc. rewrite inject_Z_plus. change (inject_Z 1) with 1. lra.
Qed.

Lemma round2_near (x : Q) :
  x - (1 # 200) <= round2 x /\ round2 x <= x + (1 # 200).
Proof.
  unfold round2. destruct (round_half_even_near (x * 100)) as [Hlo Hhi].
  set (i := inject_Z (round_half_even (x * 100))) in *. clearbody i.
  unfold Qdiv. change (/ 100) with (1 # 100). split; lra.
Qed.

Lemma catalogue_prices p : In p PRODUCT_CATALOG -> 2 <= base_price p.
Proof.
  intros H. simpl in H.
  repeat (destruct H as [<-|H]; [vm_compute; discriminate|]). destruct H.
Qed.

Lemma discount_share (d : Z) :
  In d DISCOUNTS -> 85 # 100 <= 1 - inject_Z d / 100 /\ 1 - inject_Z d / 100 <= 1.
Proof.
  intros H. simpl in H.
  repeat (destruct H as [<-|H]; [split; vm_compute; discriminate|]). destruct H.
Qed.

(** X11: when the random source answers within its documented ranges
    ([random()] in the unit interval, a quantity of at least one), the unit
    price is within half a cent of the band from 85% to 120% of the
    catalogue price, and both the unit price and the total are positive;
    the total never exceeds quantity times unit price by more than the
    rounding. *)
Theorem prices_stay_near_the_catalogue w :
  let d := draw E (attempts w) in
  let o := fst (create_order E w) in
  0 <= d_price d -> d_price d <= 1 -> (1 <= d_quantity d)%Z ->
  exists p u total,
    In p PRODUCT_CATALOG /\
    o !! "item" = Some (PyStr (item p)) /\
    o !! "unit_price" = Some (PyFloat u) /\
    o !! "total_amount" = Some (PyFloat total) /\
    base_price p * (85 # 100) - (1 # 200) <= u /\
    u <= base_price p * (120 # 100) + (1 # 200) /\
    0 < u /\ 0 < total /\
    total <= inject_Z (d_quantity d) * u + (1 # 200).
Proof.
  cbv zeta. intros Hr0 Hr1 Hq. unfold create_order, next_draw. exec.
  set (d := draw E (attempts w)) in *.
  pose proof (choice_In no_product PRODUCT_CATALOG (d_product d)
                ltac:(discriminate)) as Hp.
  pose proof (choice_In 0%Z DISCOUNTS (d_discount d) ltac:(discriminate)) as Hd.
  revert Hp Hd.
  generalize (choice no_product PRODUCT_CATALOG (d_product d)).
  generalize (choice 0%Z DISCOUNTS (d_discount d)).
  intros disc prod Hp Hd.
  eexists prod, _, _.
  split; [exact Hp|]. split; [reflexivity|]. split; [reflexivity|].
  split; [reflexivity|].
  apply catalogue_prices in Hp. apply discount_share in Hd.
  set (share := 1 - inject_Z disc / 100) in *. clearbody share.
  set (B := base_price prod) in *. clearbody B.
  set (r := d_price d) in *.
  assert (Hq' : 1 <= inject_Z (d_quantity d)).
  { change 1 with (inject_Z 1). rewrite <- Zle_Qle. exact Hq. }
  set (q := inject_Z (d_quantity d)) in *. clearbody q. clearbody r.
  unfold uniform.
  pose proof (round2_near (B * (85 # 100) + (B * (120 # 100) - B * (85 # 100)) * r))
    as [Hulo Huhi].
  set (u := round2 _) in *. clearbody u.
  assert (HBr : 0 <= B * r) by (apply Qmult_le_0_compat; lra).
  assert (HBr' : 0 <= B * (1 - r)) by (apply Qmult_le_0_compat; lra).
  assert (Hu : 169 # 100 <= u) by lra.
  pose proof (round2_near (q * u * share)) as [Htlo Hthi].
  set (total := round2 _) in *. clearbody total.
  assert (Hqu : 0 <= (q - 1) * u) by (apply Qmult_le_0_compat; lra).
  assert (Hs1 : 0 <= q * u * (1 - share)).
  { apply Qmult_le_0_compat; [apply Qmult_le_0_compat|]; lra. }
  assert (Hs2 : 0 <= q * u * (share - (85 # 100))).
  { apply Qmult_le_0_compat; [apply Qmult_le_0_compat|]; lra. }
  repeat split; lra.
Qed.

Lemma py_int_floor (x : Q) : 0 <= x -> py_int x = Qfloor x.
Proof.
  destruct x as [n d]. unfold py_int, Qfloor, Qle. simpl. intros H.
  apply Z.quot_div_nonneg; lia.
Qed.


Lemma make_order_event_time w :
  dict_get (fst (make_order E w)) "event_time_ms" =
  PyInt (py_int ((now (clock w) + lag E (ticks (clock w))) * 1000)).
Proof.
  unfold make_order, dict_get. destruct (script E).
  - unfold create_order, next_draw. exec. reflexivity.
  - rewrite create_invalid_order_corrupts, corrupt_other by discriminate.
    unfold create_order, next_draw. exec. reflexivity.
Qed.

(** ** The send loop as a whole *)

Lemma polls_app l1 l2 : polls (l1 ++ l2) = polls l1 ++ polls l2.
Proof.
  induction l1 as [|e l1 IH]; [reflexivity|].
  destruct e; simpl; rewrite IH; reflexivity.
Qed.

Lemma reports_poll_nothing l :
  forallb is_report_effect l = true -> polls l = [].
Proof.
  induction l as [|e l IH]; [reflexivity|]. simpl. intros H.
  apply andb_prop in H as [He Hl]. destruct e; try discriminate; auto.
Qed.

Lemma rate_accepted : 0 < events_per_second (args E) ->
  Qle_bool (events_per_second (args E)) 0 = false.
Proof.
  intros Hr. destruct (Qle_bool _ _) eqn:Hq; [|reflexivity].
  apply Qle_bool_iff in Hq. lra.
Qed.

Lemma returned_rate fuel e l w :
  main E fuel = Returned e l w -> 0 < events_per_second (args E).
Proof.
  intros Hrun. destruct (Qle_bool (events_per_second (args E)) 0) eqn:Hr.
  - unfold main in Hrun. rewrite Hr in Hrun. discriminate.
  - apply Qnot_le_lt. intros Hle. apply Qle_bool_iff in Hle. congruence.
Qed.

Lemma flush_log t w :
  let w' := snd (flush E t w) in
  exists extra,
    log w' = log w ++ [EFlush t] ++ extra /\
    forallb is_report_effect extra = true /\
    sent_ok (metrics w') = (sent_ok (metrics w) + Z.of_nat (acks extra))%Z /\
    sent_error (metrics w') = (sent_error (metrics w) + Z.of_nat (nacks extra))%Z /\
    (length (inflight w') + acks extra + nacks extra = length (inflight w))%nat.
Proof.
  cbv zeta. destruct (flush_pumped t w) as
    [_ _ (extra & Hl & Hr & Hok & Herr & Hq) _ _ _ _].
  exec_in Hl. exec_in Hok. exec_in Herr. exec_in Hq.
  exists extra. rewrite Hl, <- app_assoc. repeat split; assumption.
Qed.

(** X13: with a positive [--max-events], a finished run has handed at most
    that many records to the client, whatever ended it (the count, the
    time limit or a signal) and however often the buffer was full. *)
Theorem never_more_than_max_events fuel e l w :
  (0 < max_events (args E))%Z ->
  main E fuel = Returned e l w ->
  (Z.of_nat (length (submitted (log w))) <= max_events (args E))%Z.
Proof.
  intros Hmax Hrun. destruct (main_tallied _ _ _ _ Hrun) as [_ <-].
  destruct (main_returned _ _ _ _ Hrun) as (w3 & Hloop & _ & _).
  apply (loop_preserves (fun l _ => (produced l <= max_events (args E))%Z))
    with (3 := Hloop); [|simpl; lia].
  intros l0 w0 s w' Hi Ht.
  destruct Ht as
    [w1 _ _ _ _ _ _ _
    | w1 extra _ _ _ _ _ _ _ _
    | l1 w1 v extra sl told t _ Hm _ _ Hpr _ _ _ _ _ _ _ _ _]; auto.
  unfold max_reached in Hm. apply andb_false_iff in Hm as [Hm|Hm]; lia.
Qed.

(** X14: when [main] returns, every record the client accepted has been
    acknowledged, has failed, or is still unreported after [flush(10)]:
    [sent_ok + sent_error] falls short of [produced] by exactly the number
    of records left in flight. *)
Theorem accepted_records_are_acked_failed_or_in_flight fuel e l w :
  main E fuel = Returned e l w ->
  (sent_ok (metrics w) + sent_error (metrics w) + Z.of_nat (length (inflight w))
   = produced l)%Z.
Proof.
  intros Hrun. destruct (main_returned _ _ _ _ Hrun) as (w3 & Hloop & _ & ->).
  assert (Hinv : (sent_ok (metrics w3) + sent_error (metrics w3)
                  + Z.of_nat (length (inflight w3)) = produced l)%Z).
  { apply (loop_preserves (fun l w =>
        (sent_ok (metrics w) + sent_error (metrics w)
         + Z.of_nat (length (inflight w)) = produced l)%Z))
      with (3 := Hloop); [|reflexivity].
    intros l0 w0 s w' Hi Ht.
    destruct Ht as
      [w1 _ _ _ Hm Hq _ _
      | w1 extra _ _ _ _ _ Hrep _ _
      | l1 w1 v extra sl told t _ _ _ _ Hpr _ _ Hrep _ _ _ _ _ _].
    - rewrite Hm, Hq. exact Hi.
    - destruct Hrep as [_ Hok Herr Hlen]. lia.
    - destruct Hrep as [_ Hok Herr Hlen]. lia. }
  destruct (flush_log 10 w3) as (extra & _ & _ & Hok & Herr & Hlen).
  exec. lia.
Qed.


Lemma unlimited_turn_goes_on l w s w' :
  (forall i, stop_seen E i = false) ->
  (duration_seconds (args E) <= 0)%Z ->
  max_reached E l = false ->
  turn E l w s w' ->
  exists l', s = Again l' /\ attempts w' = S (attempts w) /\
             (produced l' = produced l \/ buffer_full E (attempts w) = false).
Proof.
  intros Hstop Hdur Hmax Ht.
  destruct Ht as
    [w1 Hwhy _ _ _ _ _ _
    | w1 extra _ _ _ Ha _ _ _ _
    | l1 w1 v extra sl told t _ _ Hfull Ha _ _ _ _ _ _ _ _ _ _].
  - exfalso. destruct Hwhy as [Hy|[Hy|Hy]].
    + rewrite Hstop in Hy. discriminate.
    + unfold deadline_reached in Hy. apply andb_prop in Hy as [Hy _].
      apply Z.ltb_lt in Hy. lia.
    + congruence.
  - exists l. auto.
  - exists l1. auto.
Qed.


(** X17: while the buffer stays full (and nothing stops the run), the
    loop spins: every turn builds an event, has it rejected and polls for a
    tenth of a second; nothing is ever sent, the pacer never sleeps, and
    [--max-events] cannot end the run because [produced] stays at 0. *)
Theorem full_buffer_spins_without_sending fuel :
  (forall i, stop_seen E i = false) ->
  (duration_seconds (args E) <= 0)%Z ->
  (forall i, buffer_full E i = true) ->
  0 < events_per_second (args E) ->
  exists w, main E fuel = Unfinished w /\
    attempts w = fuel /\
    submitted (log w) = [] /\
    sleeps (log w) = [] /\
    polls (log w) = repeat (1 # 10) fuel.
Proof.
  intros Hstop Hdur Hfull Hr. rewrite (main_unfold fuel (rate_accepted Hr)).
  assert (Hloop : forall fuel l w, produced l = 0%Z ->
    exists w', loop E fuel l w = (None, w') /\
               attempts w' = (attempts w + fuel)%nat /\
               submitted (log w') = submitted (log w) /\
               sleeps (log w') = sleeps (log w) /\
               polls (log w') = polls (log w) ++ repeat (1 # 10) fuel).
  { clear fuel. induction fuel as [|fuel IH]; intros l w Hp.
    - exists w. simpl. rewrite app_nil_r. repeat split. lia.
    - rewrite loop_step. pose proof (iteration_turn l w) as Ht.
      destruct (iteration E l w) as [s w1]. simpl in Ht.
      assert (Hm : max_reached E l = false).
      { unfold max_reached. rewrite Hp.
        destruct (0 <? max_events (args E))%Z eqn:H0; [|reflexivity].
        apply Z.ltb_lt in H0. apply Z.leb_gt. exact H0. }
      destruct Ht as
        [w1 Hwhy _ _ _ _ _ _
        | w1 extra _ _ _ Ha Hl Hrep _ _
        | l1 w1 v extra sl told t _ _ Hacc _ _ _ _ _ _ _ _ _ _ _].
      + exfalso. destruct Hwhy as [Hy|[Hy|Hy]].
        * rewrite Hstop in Hy. discriminate.
        * unfold deadline_reached in Hy. apply andb_prop in Hy as [Hy _].
          apply Z.ltb_lt in Hy. lia.
        * congruence.
      + destruct (IH l w1 Hp) as (w' & Hrun & Ha' & Hsub & Hsl & Hpo).
        exists w'. split; [exact Hrun|].
        pose proof (reported_only _ _ _ _ Hrep) as Hx.
        destruct (reports_attempt_nothing extra Hx) as [Hatt Hsl'].
        pose proof (reports_poll_nothing extra Hx) as Hpo'.
        split; [lia|]. rewrite Hsub, Hsl, Hpo, Hl.
        rewrite submitted_app, !sleeps_app, !polls_app, Hsl', Hpo'.
        unfold submitted. rewrite attempted_app, Hatt. simpl.
        rewrite !app_nil_r, <- app_assoc. repeat split.
      + rewrite Hfull in Hacc. discriminate. }
  destruct (Hloop fuel (init_locals (start_time E)) (loop_world E) eq_refl)
    as (w' & -> & Ha & Hsub & Hsl & Hpo).
  exists w'. split; [reflexivity|]. split; [exact Ha|].
  split; [exact Hsub|]. split; [exact Hsl | exact Hpo].
Qed.

(** X18: the client is polled exactly once after every call of [produce]:
    with timeout 0 after an accepted record, with 0.1 s after
    [BufferError]. *)
Theorem one_poll_follows_each_produce fuel e l w :
  main E fuel = Returned e l w ->
  polls (log w) = map poll_after (attempted (log w)).
Proof.
  intros Hrun. destruct (main_returned _ _ _ _ Hrun) as (w3 & Hloop & _ & ->).
  assert (Hinv : polls (log w3) = map poll_after (attempted (log w3))).
  { apply (loop_preserves (fun _ w =>
        polls (log w) = map poll_after (attempted (log w))))
      with (3 := Hloop); [|reflexivity].
    intros l0 w0 s w' Hi Ht.
    destruct Ht as
      [w1 _ _ Hl _ _ _ _
      | w1 extra _ _ _ _ Hl Hrep _ _
      | l1 w1 v extra sl told t _ _ _ _ _ _ Hl Hrep Htold _ _ _ Hp _].
    - rewrite Hl. exact Hi.
    - pose proof (reported_only _ _ _ _ Hrep) as Hx.
      destruct (reports_attempt_nothing extra Hx) as [Hatt _].
      rewrite Hl, !polls_app, !attempted_app, (reports_poll_nothing extra Hx),
        Hatt, Hi, map_app. reflexivity.
    - pose proof (reported_only _ _ _ _ Hrep) as Hx.
      destruct (reports_attempt_nothing extra Hx) as [Hatt _].
      destruct (paced_quiet _ _ _ _ _ Hp) as (Hsa & _).
      destruct (told_quiet told Htold) as (Hta & _).
      assert (Hps : polls sl = []) by (inversion Hp; reflexivity).
      assert (Hpt : polls told = []) by (destruct Htold as [->| ->]; reflexivity).
      rewrite Hl, !polls_app, !attempted_app, (reports_poll_nothing extra Hx),
        Hatt, Hsa, Hta, Hps, Hpt, Hi, map_app. reflexivity. }
  destruct (flush_log 10 w3) as (extra & Hl & Hrep & _).
  destruct (reports_attempt_nothing extra Hrep) as [Hatt _].
  exec. rewrite Hl, !polls_app, !attempted_app, (reports_poll_nothing extra Hrep),
    Hatt. simpl. rewrite !app_nil_r. exact Hinv.
Qed.

Lemma iteration_heads l w : heads (snd (iteration E l w)) = S (heads w).
Proof.
  unfold iteration, poll, produce, pace, report. exec.
  destruct (stop_seen E (heads w)); [reflexivity|]. exec.
  match goal with |- context [if ?c then _ else _] => destruct c end;
    [reflexivity|].
  match goal with |- context [if ?c then _ else _] => destruct c end;
    [reflexivity|].
  match goal with |- context [make_order E ?w0] =>
    destruct (make_order_spec w0) as (o & Ho & _); rewrite Ho; clear Ho
  end.
  exec.
  destruct (buffer_full E (attempts w)); exec;
    match goal with |- context [serve E ?ds ?w0] =>
      pose proof (pumped_heads _ _ _ (serve_pumped ds w0)) as Hh;
      destruct (serve E ds w0) as [u w1]
    end;
    exec_in Hh; exec; [exact Hh|].
  repeat match goal with |- context [if ?c then _ else _] => destruct c end;
    exec; exact Hh.
Qed.

(** A turn that goes on was not past the time limit when it began. *)
Lemma iteration_again_deadline l w l' :
  fst (iteration E l w) = Again l' -> deadline_reached E l w = false.
Proof.
  unfold iteration, deadline_reached. exec.
  destruct (stop_seen E (heads w)); [discriminate|]. exec.
  match goal with |- context [if ?c then _ else _] => destruct c eqn:Hc end;
    [discriminate|].
  reflexivity.
Qed.

Lemma loop_preserves_run (I : Locals -> World -> Prop) :
  (forall l w, I l w ->
     I (match fst (iteration E l w) with Break => l | Again l' => l' end)
       (snd (iteration E l w))) ->
  forall fuel l w l' w',
    I l w -> loop E fuel l w = (Some l', w') -> I l' w'.
Proof.
  intros Hstep. induction fuel as [|fuel IH]; intros l w l' w' HI Hrun.
  - discriminate.
  - rewrite loop_step in Hrun. specialize (Hstep l w HI).
    destruct (iteration E l w) as [[|l1] w1]; simpl in Hstep.
    + inversion Hrun; subst. exact Hstep.
    + exact (IH _ _ _ _ Hstep Hrun).
Qed.

(** X19: a stop signal ends the run in good order.  If the flag is seen
    set at the [k]-th loop test, [main] returns (exit status 0, after the
    flush and the summary) having called [produce] at most [k] times. *)
Theorem stop_signal_ends_the_run fuel k :
  0 < events_per_second (args E) ->
  stop_seen E k = true -> (k < fuel)%nat ->
  exists e l w,
    main E fuel = Returned e l w /\
    (attempts w <= k)%nat /\
    exit_status (main E fuel) = Some 0%Z.
Proof.
  intros Hr Hstop Hk.
  assert (Hloop : forall fuel l w j,
    stop_seen E (heads w + j) = true -> (j < fuel)%nat ->
    exists l' w', loop E fuel l w = (Some l', w') /\
                  (attempts w' <= attempts w + j)%nat).
  { clear fuel k Hstop Hk.
    induction fuel as [|fuel IH]; intros l w j Hs Hj; [lia|].
    rewrite loop_step. pose proof (iteration_turn l w) as Ht.
    pose proof (iteration_heads l w) as Hh.
    destruct (iteration E l w) as [s w1]. simpl in Ht, Hh.
    destruct Ht as
      [w1 _ Ha _ _ _ _ _
      | w1 extra Hgo _ _ Ha _ _ _ _
      | l1 w1 v extra sl told t Hgo _ _ Ha _ _ _ _ _ _ _ _ _ _].
    - exists l, w1. split; [reflexivity | lia].
    - destruct j as [|j]; [rewrite Nat.add_0_r in Hs; congruence|].
      destruct (IH l w1 j) as (l' & w' & Hrun & Hle);
        [rewrite Hh; rewrite <- Hs; f_equal; lia | lia |].
      exists l', w'. split; [exact Hrun | lia].
    - destruct j as [|j]; [rewrite Nat.add_0_r in Hs; congruence|].
      destruct (IH l1 w1 j) as (l' & w' & Hrun & Hle);
        [rewrite Hh; rewrite <- Hs; f_equal; lia | lia |].
      exists l', w'. split; [exact Hrun | lia]. }
  destruct (Hloop fuel (init_locals (start_time E)) (loop_world E) k Hstop Hk)
    as (l' & w' & Hrun & Hle).
  rewrite (main_unfold fuel (rate_accepted Hr)), Hrun. cbv zeta.
  eexists _, _, _. split; [reflexivity|]. split; [|reflexivity].
  destruct (flush_frame 10 w') as (Ha & _). exec. rewrite Ha. exact Hle.
Qed.


End Facts.

(** *** Sample runs of the producer *)

Lemma sample_bounded s rate limit full :
  (0 < limit)%Z -> count_bounded (sample_env s rate limit full).
Proof. intros H. repeat split; simpl; auto. lia. Qed.

Lemma sample_instantaneous s rate limit full :
  instantaneous (sample_env s rate limit full) /\
  (forall n, 0 <= lag (sample_env s rate limit full) n).
Proof.
  split.
  - intros [|n] Hn; [lia | reflexivity].
  - intros [|n]; simpl; [discriminate | apply Qle_refl].
Qed.

Lemma returned_eta o :
  is_returned o = true -> o = Returned (elapsed_of o) (locals_of o) (final_world o).
Proof. destruct o; simpl; congruence. Qed.




(** C1 as stated fails: with the buffer full at the fourth of the calls
    needed for five events, the rejected event is never submitted. *)
Lemma rejected_event_is_never_sent :
  ~ (forall k,
       In k (rejected (log (final_world (main (sample_env Orders 5 5 [3%nat]) 11)))) ->
       In k (submitted (log (final_world (main (sample_env Orders 5 5 [3%nat]) 11))))).
Proof.
  assert (Hr : rejected (log (final_world (main (sample_env Orders 5 5 [3%nat]) 11)))
               = ["d"]) by (vm_compute; reflexivity).
  assert (Hs : submitted (log (final_world (main (sample_env Orders 5 5 [3%nat]) 11)))
               = ["a"; "b"; "c"; "e"; "f"]) by (vm_compute; reflexivity).
  rewrite Hr, Hs. intros H. specialize (H "d" (or_introl eq_refl)).
  simpl in H. repeat destruct H as [H|H]; try discriminate H. exact H.
Qed.

Lemma backpressure_builds_a_fresh_event_witness :
  exists e l w,
    main (sample_env Orders 5 2 [1%nat]) 5 = Returned e l w /\
    produced l = 2%Z /\
    length (submitted (log w)) = 2%nat.
Proof.
  destruct (backpressure_builds_a_fresh_event (sample_env Orders 5 2 [1%nat]))
    as (_ & _ & H).
  apply (H (sample_bounded Orders 5 2 [1%nat] eq_refl)).
  - intros [|[|i]]; simpl; intros Hf; try discriminate Hf; reflexivity.
  - reflexivity.
  - apply Nat.leb_le. reflexivity.
Defined.



Lemma rate_checked_at_startup_witness :
  (exists msg, main (sample_env Orders 0 10 []) 5 = Raised (ValueError msg) world0) /\
  (forall e w, main (sample_env Orders 5 1 []) 5 <> Raised e w).
Proof.
  split.
  - destruct (rate_checked_at_startup (sample_env Orders 0 10 []) 5) as [H _].
    destruct H as (msg & Hm & _); [vm_compute; discriminate|].
    exists msg. exact Hm.
  - destruct (rate_checked_at_startup (sample_env Orders 5 1 []) 5) as [_ H].
    apply H. reflexivity.
Defined.

Lemma sample_returns s rate limit full fuel :
  is_returned (main (sample_env s rate limit full) fuel) = true ->
  main (sample_env s rate limit full) fuel =
  Returned (elapsed_of (main (sample_env s rate limit full) fuel))
           (locals_of (main (sample_env s rate limit full) fuel))
           (final_world (main (sample_env s rate limit full) fuel)).
Proof. apply returned_eta. Qed.

Lemma prices_stay_near_the_catalogue_witness :
  exists p u total,
    In p PRODUCT_CATALOG /\
    fst (create_order (sample_env Orders 5 1 []) world0) !! "unit_price"
      = Some (PyFloat u) /\
    fst (create_order (sample_env Orders 5 1 []) world0) !! "total_amount"
      = Some (PyFloat total) /\
    0 < u /\ 0 < total.
Proof.
  pose proof (prices_stay_near_the_catalogue (sample_env Orders 5 1 []) world0)
    as H. cbv zeta in H.
  destruct H as (p & u & total & Hp & _ & Hu & Ht & _ & _ & Hu0 & Ht0 & _).
  - vm_compute. discriminate.
  - vm_compute. discriminate.
  - vm_compute. discriminate.
  - exists p, u, total. repeat split; assumption.
Defined.


Lemma never_more_than_max_events_witness :
  (Z.of_nat (length (submitted (log (final_world
      (main (sample_env Orders 5 2 [1%nat]) 6))))) <= 2)%Z.
Proof.
  apply (never_more_than_max_events (sample_env Orders 5 2 [1%nat]) 6
           (elapsed_of (main (sample_env Orders 5 2 [1%nat]) 6))
           (locals_of (main (sample_env Orders 5 2 [1%nat]) 6))).
  - reflexivity.
  - apply sample_returns. vm_compute. reflexivity.
Defined.

Lemma accepted_records_are_acked_failed_or_in_flight_witness :
  (sent_ok (metrics (final_world (main (sample_env Orders 5 2 []) 5)))
   + sent_error (metrics (final_world (main (sample_env Orders 5 2 []) 5)))
   + Z.of_nat (length (inflight (final_world (main (sample_env Orders 5 2 []) 5))))
   = produced (locals_of (main (sample_env Orders 5 2 []) 5)))%Z.
Proof.
  apply (accepted_records_are_acked_failed_or_in_flight
           (sample_env Orders 5 2 []) 5
           (elapsed_of (main (sample_env Orders 5 2 []) 5))).
  apply sample_returns. vm_compute. reflexivity.
Defined.



Lemma full_buffer_spins_without_sending_witness :
  exists w, main (jammed_env 5 3) 4 = Unfinished w /\
    attempts w = 4%nat /\
    submitted (log w) = [] /\
    sleeps (log w) = [] /\
    polls (log w) = repeat (1 # 10) 4.
Proof.
  apply (full_buffer_spins_without_sending (jammed_env 5 3) 4).
  - intros i. reflexivity.
  - vm_compute. discriminate.
  - intros i. reflexivity.
  - reflexivity.
Defined.

Lemma one_poll_follows_each_produce_witness :
  polls (log (final_world (main (sample_env Orders 5 2 [1%nat]) 6))) =
  map poll_after
      (attempted (log (final_world (main (sample_env Orders 5 2 [1%nat]) 6)))).
Proof.
  apply (one_poll_follows_each_produce (sample_env Orders 5 2 [1%nat]) 6
           (elapsed_of (main (sample_env Orders 5 2 [1%nat]) 6))
           (locals_of (main (sample_env Orders 5 2 [1%nat]) 6))).
  apply sample_returns. vm_compute. reflexivity.
Defined.

Lemma stop_signal_ends_the_run_witness :
  exists e l w,
    main (interrupted_env 5 2) 5 = Returned e l w /\
    (attempts w <= 2)%nat /\
    exit_status (main (interrupted_env 5 2) 5) = Some 0%Z.
Proof.
  apply (stop_signal_ends_the_run (interrupted_env 5 2) 5 2).
  - reflexivity.
  - reflexivity.
  - apply Nat.ltb_lt. reflexivity.
Defined.


End ProducerFacts.

(** * Properties of scripts/reset_project.py *)

Module ResetFacts.

Import Reset.

Lemma commands_app l1 l2 : commands (l1 ++ l2) = commands l1 ++ commands l2.
Proof.
  induction l1 as [|e l1 IH]; [reflexivity|].
  destruct e; simpl; rewrite IH; reflexivity.
Qed.

Lemma pauses_app l1 l2 : sleeps (l1 ++ l2) = sleeps l1 ++ sleeps l2.
Proof.
  induction l1 as [|e l1 IH]; [reflexivity|].
  destruct e; simpl; rewrite IH; reflexivity.
Qed.

Lemma writes_app l1 l2 : writes (l1 ++ l2) = writes l1 ++ writes l2.
Proof.
  induction l1 as [|e l1 IH]; [reflexivity|].
  destruct e; simpl; rewrite IH; reflexivity.
Qed.

Lemma repeat_snoc {A} (a : A) n : repeat a n ++ [a] = a :: repeat a n.
Proof. induction n as [|n IH]; [reflexivity|]. simpl. rewrite IH. reflexivity. Qed.

(** ** Clearing the notebook *)

Lemma dict_get_insert (d : gmap string pyval) (k : string) v :
  dict_get (<[k := v]> d) k = v.
Proof. unfold dict_get. rewrite lookup_insert_eq. reflexivity. Qed.

Lemma dict_get_insert_ne (d : gmap string pyval) (k k' : string) v :
  k <> k' -> dict_get (<[k := v]> d) k' = dict_get d k'.
Proof. intros H. unfold dict_get. rewrite lookup_insert_ne by exact H. reflexivity. Qed.

Ltac cell_cases d :=
  unfold clear_cell;
  let Hc := fresh "Hc" in
  let Ho := fresh "Ho" in
  let He := fresh "He" in
  destruct (is_code d) eqn:Hc; cbn [negb];
  [ destruct (truthy (dict_get d "outputs")) eqn:Ho;
    [ rewrite dict_get_insert_ne by discriminate |];
    destruct (dict_get d "execution_count") eqn:He; cbn [fst snd]
  | cbn [fst snd] ].

Lemma clear_cell_other d (k : string) :
  k <> "outputs" -> k <> "execution_count" ->
  fst (clear_cell d) !! k = d !! k.
Proof.
  intros H1 H2. cell_cases d;
    rewrite ?lookup_insert_ne by congruence; reflexivity.
Qed.

Lemma clear_cell_skips d : is_code d = false -> clear_cell d = (d, false).
Proof. intros H. unfold clear_cell. rewrite H. reflexivity. Qed.

Lemma clear_cell_clears d : is_code d = true -> cleared (fst (clear_cell d)).
Proof.
  intros H. unfold cleared. cell_cases d; try discriminate;
    (split;
     [ rewrite ?(dict_get_insert_ne _ "execution_count" "outputs") by discriminate;
       rewrite ?dict_get_insert; first [reflexivity | assumption]
     | rewrite ?dict_get_insert;
       rewrite ?(dict_get_insert_ne _ "outputs" "execution_count") by discriminate;
       first [reflexivity | assumption] ]).
Qed.

Lemma clear_cell_unchanged d :
  snd (clear_cell d) = false -> fst (clear_cell d) = d.
Proof. cell_cases d; intros H; first [discriminate | reflexivity]. Qed.

Lemma clear_cell_changed d :
  snd (clear_cell d) = true -> fst (clear_cell d) <> d.
Proof.
  cell_cases d; intros H Heq; try discriminate;
    first
      [ apply (f_equal (fun m => dict_get m "outputs")) in Heq;
        rewrite ?(dict_get_insert_ne _ "execution_count" "outputs") in Heq
          by discriminate;
        rewrite dict_get_insert in Heq; rewrite <- Heq in Ho; discriminate
      | apply (f_equal (fun m => dict_get m "execution_count")) in Heq;
        rewrite dict_get_insert in Heq; rewrite He in Heq; discriminate ].
Qed.

Lemma clear_cell_clean d :
  is_code d = false \/ cleared d -> clear_cell d = (d, false).
Proof.
  intros [H|[Ho He]]; [apply clear_cell_skips, H|].
  unfold clear_cell. destruct (is_code d); [|reflexivity]. cbn [negb].
  rewrite Ho, He. reflexivity.
Qed.

Lemma clear_cell_kind d : is_code (fst (clear_cell d)) = is_code d.
Proof.
  unfold is_code, dict_get.
  rewrite (clear_cell_other d "cell_type") by discriminate. reflexivity.
Qed.

Lemma clear_cell_again d : clear_cell (fst (clear_cell d)) = (fst (clear_cell d), false).
Proof.
  apply clear_cell_clean. rewrite clear_cell_kind.
  destruct (is_code d) eqn:Hc; [right; apply clear_cell_clears, Hc | left; reflexivity].
Qed.

Lemma clear_cells_spec cells :
  forall cells' changed,
    clear_cells cells = inr (cells', changed) ->
    Forall2 cell_cleared cells cells' /\
    (changed = false -> cells' = cells) /\
    (changed = true -> cells' <> cells) /\
    clear_cells cells' = inr (cells', false).
Proof.
  induction cells as [|c rest IH]; intros cells' changed Hrun.
  - inversion Hrun; subst. repeat split; try discriminate. constructor.
  - destruct c as [| | | | | |d]; try discriminate. cbn [clear_cells] in Hrun.
    pose proof (clear_cell_other d) as Hother.
    pose proof (clear_cell_skips d) as Hskip.
    pose proof (clear_cell_clears d) as Hclr.
    pose proof (clear_cell_unchanged d) as Hun.
    pose proof (clear_cell_changed d) as Hch.
    pose proof (clear_cell_again d) as Hag.
    destruct (clear_cell d) as [d' chd]. cbn [fst snd] in *.
    destruct (clear_cells rest) as [e|[rest' chr]]; [discriminate|].
    inversion Hrun; subst. clear Hrun.
    destruct (IH rest' chr eq_refl) as (Hf & Hu & Hc & Hi).
    split; [|split; [|split]].
    + constructor; [|exact Hf]. exists d, d'.
      split; [reflexivity|]. split; [reflexivity|]. split; [exact Hother|].
      split; [|exact Hclr]. intros Hk. specialize (Hskip Hk). congruence.
    + intros Hb. apply orb_false_iff in Hb as [-> ->].
      rewrite (Hun eq_refl), (Hu eq_refl). reflexivity.
    + intros Hb Heq. inversion Heq; subst.
      apply orb_true_iff in Hb as [->| ->];
        [exact (Hch eq_refl eq_refl) | exact (Hc eq_refl eq_refl)].
    + cbn [clear_cells]. rewrite Hag, Hi. reflexivity.
Qed.

Lemma clear_cells_objects cells :
  Forall (fun c => exists d, c = PyDict d) cells ->
  exists cells' changed, clear_cells cells = inr (cells', changed).
Proof.
  induction 1 as [|c rest (d & ->) _ (rest' & chr & IH)].
  - eexists _, _. reflexivity.
  - cbn [clear_cells]. destruct (clear_cell d) as [d' chd]. rewrite IH.
    eexists _, _. reflexivity.
Qed.

Lemma clear_cells_error cells e : clear_cells cells = inl e -> e = AttributeError.
Proof.
  induction cells as [|c rest IH]; [discriminate|].
  destruct c as [| | | | | |d]; cbn [clear_cells]; try congruence.
  destruct (clear_cell d) as [d' chd].
  destruct (clear_cells rest) as [e'|[rest' chr]]; [|discriminate].
  intros H. inversion H; subst. apply IH. reflexivity.
Qed.


(** X24: clearing is idempotent.  After a run of [clear_notebook_outputs]
    that succeeded, a second run succeeds too, finds the notebook clean (or
    still missing) and writes nothing. *)
Theorem clearing_twice_writes_nothing_more w w1 :
  clear_notebook_outputs w = (inr tt, w1) ->
  exists w2,
    clear_notebook_outputs w1 = (inr tt, w2) /\
    notebook w2 = notebook w1 /\
    writes (log w2) = writes (log w1) /\
    (log w2 = log w1 ++ [EPrint LNotebookClean] \/
     log w2 = log w1 ++ [EPrint LNotebookMissing]).
Proof.
  unfold clear_notebook_outputs at 1. intros Hrun.
  destruct (notebook w) as [[v|]|] eqn:Hnb.
  - destruct v as [| | | | | |nb]; try discriminate.
    destruct (iter_cells (nb !! "cells")) as [e|cells] eqn:Hi; [discriminate|].
    destruct (clear_cells cells) as [e|[cells' changed]] eqn:Hc; [discriminate|].
    destruct (clear_cells_spec cells cells' changed Hc) as (_ & Hu & _ & Hag).
    destruct changed.
    + unfold bind, write_notebook, print, emit in Hrun. simpl in Hrun.
      inversion Hrun; subst. clear Hrun.
      unfold clear_notebook_outputs. cbn [notebook].
      rewrite lookup_insert_eq. cbn [iter_cells]. rewrite Hag.
      eexists. split; [reflexivity|]. unfold print, emit. simpl.
      rewrite writes_app. simpl. rewrite app_nil_r. auto.
    + unfold print, emit in Hrun. inversion Hrun; subst. clear Hrun.
      unfold clear_notebook_outputs. cbn [notebook]. rewrite Hnb, Hi, Hc.
      eexists. split; [reflexivity|]. unfold print, emit. simpl.
      rewrite writes_app. simpl. rewrite app_nil_r. auto.
  - discriminate.
  - unfold print, emit in Hrun. inversion Hrun; subst. clear Hrun.
    unfold clear_notebook_outputs. cbn [notebook]. rewrite Hnb.
    eexists. split; [reflexivity|]. unfold print, emit. simpl.
    rewrite writes_app. simpl. rewrite app_nil_r. auto.
Qed.

Lemma clear_notebook_frame w :
  tree (snd (clear_notebook_outputs w)) = tree w /\
  runs (snd (clear_notebook_outputs w)) = runs w /\
  commands (log (snd (clear_notebook_outputs w))) = commands (log w) /\
  (forall e, fst (clear_notebook_outputs w) = inl e ->
             e = AttributeError \/ e = TypeError \/ e = LoadError).
Proof.
  unfold clear_notebook_outputs.
  destruct (notebook w) as [[v|]|].
  - destruct v as [| | | | | |nb];
      try (unfold raise; simpl; repeat split; intros e He; inversion He; auto).
    destruct (nb !! "cells") as [v|].
    + destruct v as [| | | | | | d]; cbn [iter_cells];
        try (unfold raise; simpl; repeat split; intros e He; inversion He; auto);
        match goal with |- context [clear_cells ?l] =>
          pose proof (clear_cells_error l) as Herr;
          destruct (clear_cells l) as [e0|[cells' changed]]
        end;
        try (unfold raise; simpl; repeat split; intros e He; inversion He; subst;
             left; apply Herr; reflexivity);
        destruct changed; unfold bind, write_notebook, print, emit; simpl;
        rewrite ?commands_app; simpl; rewrite ?app_nil_r;
        repeat split; intros e He; discriminate.
    + cbn [iter_cells clear_cells]. unfold print, emit. simpl.
      rewrite commands_app. simpl. rewrite app_nil_r.
      repeat split. intros e He. discriminate.
  - unfold raise. simpl. repeat split. intros e He. inversion He. auto.
  - unfold print, emit. simpl. rewrite commands_app. simpl. rewrite app_nil_r.
    repeat split. intros e He. discriminate.
Qed.

Section Facts.

Variable E : Env.

Lemma run_cmd_spec cmd check w :
  run_cmd E cmd check w =
  (if check && negb (returncode E (runs w) =? 0)
   then inl (CommandFailed (returncode E (runs w)) cmd)
   else inr (returncode E (runs w)),
   {| runs := S (runs w); notebook := notebook w; tree := tree w;
      log := log w ++ [EPrint (LCommand cmd); ERun cmd] |}).
Proof.
  unfold run_cmd, bind, print, emit, subprocess_run, raise, ret. simpl.
  rewrite <- app_assoc. simpl. destruct (check && _); reflexivity.
Qed.

Lemma wait_loop_ready n :
  forall remaining attempt max_attempts delay w,
    all_fail E (runs w) n -> returncode E (runs w + n) = 0 ->
    (n < remaining)%nat ->
    exists w',
      wait_loop E remaining attempt max_attempts delay w = (inr tt, w') /\
      runs w' = S (runs w + n) /\
      commands (log w') = commands (log w) ++ repeat CHECK_CMD (S n) /\
      sleeps (log w') = sleeps (log w) ++ repeat delay n /\
      tree w' = tree w /\ notebook w' = notebook w.
Proof.
  induction n as [|n IH]; intros remaining attempt max_attempts delay w Hf Hz Hn;
    (destruct remaining as [|remaining]; [lia|]);
    cbn [wait_loop]; unfold bind at 1; rewrite run_cmd_spec; cbn [andb].
  - rewrite Nat.add_0_r in Hz. rewrite Hz. cbn [Z.eqb].
    eexists. split; [reflexivity|]. simpl.
    rewrite !commands_app, !pauses_app. simpl. rewrite !app_nil_r, Nat.add_0_r.
    repeat split.
  - pose proof (Hf 0%nat ltac:(lia)) as H0. rewrite Nat.add_0_r in H0.
    apply Z.eqb_neq in H0. rewrite H0.
    unfold bind, print, emit. cbn [fst snd runs notebook tree log].
    match goal with |- context [wait_loop E remaining ?a ?m ?d ?w0] =>
      destruct (IH remaining a m d w0) as (w' & Hrun & Hr & Hc & Hs & Ht & Hb)
    end.
    + intros j Hj. cbn [runs]. replace (S (runs w) + j)%nat
        with (runs w + S j)%nat by lia. apply Hf. lia.
    + cbn [runs]. replace (S (runs w) + n)%nat with (runs w + S n)%nat by lia.
      exact Hz.
    + lia.
    + exists w'. split; [exact Hrun|]. cbn [runs log tree notebook] in *.
      rewrite Hr, Hc, Hs, !commands_app, !pauses_app. simpl.
      rewrite !app_nil_r, <- !app_assoc. simpl.
      repeat split; try assumption. lia.
Qed.

Lemma wait_loop_gives_up remaining :
  forall attempt max_attempts delay w,
    all_fail E (runs w) remaining ->
    exists w',
      wait_loop E remaining attempt max_attempts delay w = (inl KafkaNotReady, w') /\
      runs w' = (runs w + remaining)%nat /\
      commands (log w') = commands (log w) ++ repeat CHECK_CMD remaining /\
      sleeps (log w') = sleeps (log w) ++ repeat delay remaining /\
      tree w' = tree w /\ notebook w' = notebook w.
Proof.
  induction remaining as [|remaining IH]; intros attempt max_attempts delay w Hf.
  - exists w. simpl. rewrite !app_nil_r, Nat.add_0_r. repeat split.
  - cbn [wait_loop]. unfold bind at 1. rewrite run_cmd_spec. cbn [andb].
    pose proof (Hf 0%nat ltac:(lia)) as H0. rewrite Nat.add_0_r in H0.
    apply Z.eqb_neq in H0. rewrite H0.
    unfold bind, print, emit. cbn [fst snd runs notebook tree log].
    match goal with |- context [wait_loop E remaining ?a ?m ?d ?w0] =>
      destruct (IH a m d w0) as (w' & Hrun & Hr & Hc & Hs & Ht & Hb)
    end.
    + intros j Hj. cbn [runs]. replace (S (runs w) + j)%nat
        with (runs w + S j)%nat by lia. apply Hf. lia.
    + exists w'. split; [exact Hrun|]. cbn [runs log tree notebook] in *.
      rewrite Hr, Hc, Hs, !commands_app, !pauses_app. simpl.
      rewrite !app_nil_r, <- !app_assoc. simpl.
      repeat split; try assumption. lia.
Qed.

(** X21: [wait_for_kafka] returns at the first readiness check that
    succeeds.  After [n] failed checks (with [n] below [max_attempts]) and
    one good one it has run [n + 1] checks and slept [n] times
    [delay_seconds], and it has touched neither the directories nor the
    notebook. *)
Theorem wait_for_kafka_returns_at_first_success max_attempts delay w n :
  all_fail E (runs w) n -> returncode E (runs w + n) = 0 ->
  (Z.of_nat n < max_attempts) ->
  exists w',
    wait_for_kafka E max_attempts delay w = (inr tt, w') /\
    commands (log w') = commands (log w) ++ repeat CHECK_CMD (S n) /\
    sleeps (log w') = sleeps (log w) ++ repeat delay n /\
    tree w' = tree w /\ notebook w' = notebook w.
Proof.
  intros Hf Hz Hn. unfold wait_for_kafka.
  destruct (wait_loop_ready n (Z.to_nat max_attempts) 1 max_attempts delay w
              Hf Hz ltac:(lia)) as (w' & Hrun & _ & Hc & Hs & Ht & Hb).
  exists w'. repeat split; assumption.
Qed.

(** X22: [wait_for_kafka] gives up after exactly [max_attempts] failed
    checks, each followed by a sleep of [delay_seconds], and raises; with
    [max_attempts] at 0 or below it raises at once, without a single
    check. *)
Theorem wait_for_kafka_gives_up_after_max_attempts max_attempts delay w :
  all_fail E (runs w) (Z.to_nat max_attempts) ->
  exists w',
    wait_for_kafka E max_attempts delay w = (inl KafkaNotReady, w') /\
    commands (log w') =
      commands (log w) ++ repeat CHECK_CMD (Z.to_nat max_attempts) /\
    sleeps (log w') = sleeps (log w) ++ repeat delay (Z.to_nat max_attempts) /\
    tree w' = tree w /\ notebook w' = notebook w.
Proof.
  intros Hf. unfold wait_for_kafka.
  destruct (wait_loop_gives_up (Z.to_nat max_attempts) 1 max_attempts delay w Hf)
    as (w' & Hrun & _ & Hc & Hs & Ht & Hb).
  exists w'. repeat split; assumption.
Qed.

(** ** The script as a whole *)

Lemma bind_inr {A B} (m : M A) (k : A -> M B) w a w' :
  m w = (inr a, w') -> bind m k w = k a w'.
Proof. intros H. unfold bind. rewrite H. reflexivity. Qed.

Lemma bind_inl {A B} (m : M A) (k : A -> M B) w e w' :
  m w = (inl e, w') -> bind m k w = (inl e, w').
Proof. intros H. unfold bind. rewrite H. reflexivity. Qed.

Lemma untouched_refl w : untouched w w.
Proof. split; reflexivity. Qed.

Lemma untouched_trans w1 w2 w3 :
  untouched w1 w2 -> untouched w2 w3 -> untouched w1 w3.
Proof. intros [H1 H2] [H3 H4]. split; congruence. Qed.

Lemma print_spec l w :
  print l w = (inr tt, {| runs := runs w; notebook := notebook w; tree := tree w;
                          log := log w ++ [EPrint l] |}).
Proof. reflexivity. Qed.

Lemma best_effort_kill_spec pattern w :
  exists w',
    best_effort_kill E pattern w = (inr tt, w') /\
    untouched w w' /\
    commands (log w') = commands (log w) ++ [["pkill"; "-f"; pattern]].
Proof.
  unfold best_effort_kill, bind. rewrite run_cmd_spec. cbn [andb].
  destruct (returncode E (runs w) =? 0); [|destruct (returncode E (runs w) =? 1)];
    rewrite print_spec; eexists; (split; [reflexivity|]);
    (split; [split; reflexivity|]); cbn [log];
    rewrite !commands_app; simpl; rewrite app_nil_r; reflexivity.
Qed.

Lemma unlink_all_spec files :
  forall removed_any w,
    exists removed w',
      unlink_all E files removed_any w = (inr removed, w') /\
      untouched w w' /\ commands (log w') = commands (log w).
Proof.
  induction files as [|f rest IH]; intros removed_any w.
  - exists removed_any, w. repeat split.
  - cbn [unlink_all]. destruct (unlink_fails E f).
    + unfold bind at 1. rewrite print_spec.
      match goal with |- context [unlink_all E rest ?b ?w0] =>
        destruct (IH b w0) as (r & w' & Hrun & [Ht Hn] & Hc)
      end.
      exists r, w'. split; [exact Hrun|]. cbn [log tree notebook] in *.
      rewrite Hc, commands_app. simpl. rewrite app_nil_r. repeat split; assumption.
    + unfold bind at 1, emit at 1.
      match goal with |- context [unlink_all E rest ?b ?w0] =>
        destruct (IH b w0) as (r & w' & Hrun & [Ht Hn] & Hc)
      end.
      exists r, w'. split; [exact Hrun|]. cbn [log tree notebook] in *.
      rewrite Hc, commands_app. simpl. rewrite app_nil_r. repeat split; assumption.
Qed.

Lemma cleanup_spec w :
  exists w',
    cleanup_jupyter_runtime E w = (inr tt, w') /\
    untouched w w' /\ commands (log w') = commands (log w).
Proof.
  unfold cleanup_jupyter_runtime.
  destruct (unlink_all_spec (runtime_files E) false w)
    as (r & w1 & Hrun & [Ht Hn] & Hc).
  rewrite (bind_inr _ _ _ _ _ Hrun).
  destruct r; rewrite print_spec; eexists; (split; [reflexivity|]);
    cbn [log tree notebook]; rewrite commands_app, Hc; simpl;
    rewrite app_nil_r; repeat split; assumption.
Qed.

Lemma kill_phase_spec w :
  exists w',
    kill_phase E w = (inr tt, w') /\
    untouched w w' /\
    commands (log w') =
      commands (log w) ++
      map (fun pattern => ["pkill"; "-f"; pattern])
          ["jupyter-notebook"; "jupyter-lab"; "ipykernel_launcher";
           "spark-submit"; "org.apache.spark.deploy.SparkSubmit"].
Proof.
  unfold kill_phase.
  pose (w0 := snd (print LStoppingLocal w)).
  assert (H0 : print LStoppingLocal w = (inr tt, w0)) by reflexivity.
  assert (U0 : untouched w w0) by (split; reflexivity).
  assert (C0 : commands (log w0) = commands (log w)).
  { subst w0. cbn [snd print emit log]. rewrite commands_app. simpl.
    apply app_nil_r. }
  clearbody w0.
  destruct (best_effort_kill_spec "jupyter-notebook" w0) as (w1 & H1 & U1 & C1).
  destruct (best_effort_kill_spec "jupyter-lab" w1) as (w2 & H2 & U2 & C2).
  destruct (best_effort_kill_spec "ipykernel_launcher" w2) as (w3 & H3 & U3 & C3).
  destruct (best_effort_kill_spec "spark-submit" w3) as (w4 & H4 & U4 & C4).
  destruct (best_effort_kill_spec "org.apache.spark.deploy.SparkSubmit" w4)
    as (w5 & H5 & U5 & C5).
  destruct (cleanup_spec w5) as (w6 & H6 & U6 & C6).
  exists w6. split.
  - pose proof (bind_inr _ (fun _ => best_effort_kill E "jupyter-notebook")
                  _ _ _ H0) as S1. cbv beta in S1. rewrite H1 in S1.
    pose proof (bind_inr _ (fun _ => best_effort_kill E "jupyter-lab")
                  _ _ _ S1) as S2. cbv beta in S2. rewrite H2 in S2.
    pose proof (bind_inr _ (fun _ => best_effort_kill E "ipykernel_launcher")
                  _ _ _ S2) as S3. cbv beta in S3. rewrite H3 in S3.
    pose proof (bind_inr _ (fun _ => best_effort_kill E "spark-submit")
                  _ _ _ S3) as S4. cbv beta in S4. rewrite H4 in S4.
    pose proof (bind_inr _ (fun _ => best_effort_kill E
                                       "org.apache.spark.deploy.SparkSubmit")
                  _ _ _ S4) as S5. cbv beta in S5. rewrite H5 in S5.
    rewrite (bind_inr _ _ _ _ _ S5). exact H6.
  - split.
    + repeat (eapply untouched_trans; [eassumption|]). apply untouched_refl.
    + rewrite C6, C5, C4, C3, C2, C1, C0. rewrite <- !app_assoc. reflexivity.
Qed.

Lemma wait_loop_frame remaining :
  forall attempt max_attempts delay w,
    untouched w (snd (wait_loop E remaining attempt max_attempts delay w)) /\
    (forall e, fst (wait_loop E remaining attempt max_attempts delay w) = inl e ->
               e = KafkaNotReady).
Proof.
  induction remaining as [|remaining IH]; intros attempt max_attempts delay w.
  - split; [apply untouched_refl|]. intros e He. inversion He. reflexivity.
  - cbn [wait_loop]. unfold bind. rewrite run_cmd_spec. cbn [andb].
    destruct (returncode E (runs w) =? 0).
    + rewrite print_spec. split; [split; reflexivity | discriminate].
    + unfold print, emit. cbn [fst snd runs notebook tree log].
      match goal with |- context [wait_loop E remaining ?a ?m ?d ?w0] =>
        destruct (IH a m d w0) as [Hu He]
      end.
      split; [|exact He]. destruct Hu as [Ht Hn]. split; assumption.
Qed.

Lemma kafka_phase_frame w :
  untouched w (snd (kafka_phase E w)) /\
  (forall e, fst (kafka_phase E w) = inl e ->
             e = KafkaNotReady \/ exists rc cmd, e = CommandFailed rc cmd).
Proof.
  unfold kafka_phase, wait_for_kafka, bind. rewrite run_cmd_spec.
  destruct (true && negb (returncode E (runs w) =? 0)).
  { split; [split; reflexivity|]. intros e He. inversion He. eauto. }
  rewrite run_cmd_spec. cbn [runs].
  destruct (true && negb (returncode E (S (runs w)) =? 0)).
  { split; [split; reflexivity|]. intros e He. inversion He. eauto. }
  match goal with |- context [wait_loop E ?r ?a ?m ?d ?w0] =>
    destruct (wait_loop_frame r a m d w0) as [[Ht Hn] He];
    destruct (wait_loop E r a m d w0) as [[e0|[]] w1]
  end; cbn [fst snd tree notebook] in *.
  { split; [split; assumption|]. intros e H. inversion H; subst.
    left. apply He. reflexivity. }
  rewrite run_cmd_spec.
  destruct (true && negb (returncode E (runs w1) =? 0)).
  - split; [split; assumption|]. intros e H. inversion H. eauto.
  - split; [split; assumption|]. discriminate.
Qed.

Lemma recreate_spec dir w :
  exists w',
    recreate dir w = (inr tt, w') /\
    tree w' = <[dir := []]> (tree w) /\ notebook w' = notebook w /\
    commands (log w') = commands (log w).
Proof.
  unfold recreate, bind, path_exists, rmtree, mkdir, print, emit, ret.
  cbn [fst snd runs notebook tree log].
  destruct (bool_decide (is_Some (tree w !! dir))) eqn:Hd;
    cbn [fst snd runs notebook tree log]; eexists; (split; [reflexivity|]);
    cbn [tree notebook log].
  - rewrite lookup_delete_eq, insert_delete_eq, !commands_app. simpl.
    rewrite !app_nil_r. repeat split.
  - apply bool_decide_eq_false in Hd.
    destruct (tree w !! dir) eqn:Hl; [exfalso; apply Hd; eauto|].
    rewrite !commands_app. simpl. rewrite !app_nil_r. repeat split.
Qed.

Lemma reset_directories_spec w :
  exists w',
    reset_directories w = (inr tt, w') /\
    tree w' = <[OUTPUT_DIR := []]> (<[DATA_DIR := []]> (tree w)) /\
    notebook w' = notebook w /\
    commands (log w') = commands (log w).
Proof.
  unfold reset_directories.
  destruct (recreate_spec DATA_DIR w) as (w1 & H1 & T1 & N1 & C1).
  destruct (recreate_spec OUTPUT_DIR w1) as (w2 & H2 & T2 & N2 & C2).
  exists w2. rewrite (bind_inr _ _ _ _ _ H1). split; [exact H2|].
  rewrite T2, T1, N2, N1, C2, C1. repeat split.
Qed.

Lemma main_cases w :
  exists w1, untouched w w1 /\
    ((exists e w2,
        main E w = (inl e, w2) /\ untouched w1 w2 /\
        skip_kafka_restart (args E) = false /\
        (e = KafkaNotReady \/ exists rc cmd, e = CommandFailed rc cmd)) \/
     (exists w2 w3,
        untouched w1 w2 /\ reset_directories w2 = (inr tt, w3) /\
        ((exists e w4,
            main E w = (inl e, w4) /\ tree w4 = tree w3 /\
            skip_clear_notebook (args E) = false /\
            (e = AttributeError \/ e = TypeError \/ e = LoadError)) \/
         (exists w4, main E w = (inr 0, w4) /\ tree w4 = tree w3)))).
Proof.
  unfold main.
  set (P1 := if negb (skip_kill_processes (args E)) then kill_phase E else ret tt).
  set (P2 := if negb (skip_kafka_restart (args E)) then kafka_phase E
             else print LSkippedKafka).
  set (P4 := if negb (skip_clear_notebook (args E)) then clear_notebook_outputs
             else print LSkippedNotebook).
  assert (H1 : exists w1, P1 w = (inr tt, w1) /\ untouched w w1).
  { subst P1. destruct (skip_kill_processes (args E)); cbn [negb].
    - exists w. split; [reflexivity | apply untouched_refl].
    - destruct (kill_phase_spec w) as (w1 & Hrun & Hu & _). eauto. }
  destruct H1 as (w1 & H1 & U1). exists w1. split; [exact U1|].
  assert (H2 : untouched w1 (snd (P2 w1)) /\
               (forall e, fst (P2 w1) = inl e ->
                  skip_kafka_restart (args E) = false /\
                  (e = KafkaNotReady \/ exists rc cmd, e = CommandFailed rc cmd))).
  { subst P2. destruct (skip_kafka_restart (args E)); cbn [negb].
    - split; [split; reflexivity | discriminate].
    - destruct (kafka_phase_frame w1) as [Hu He]. split; [exact Hu|].
      intros e H. split; [reflexivity | exact (He e H)]. }
  destruct H2 as [U2 E2]. unfold bind. rewrite H1.
  destruct (P2 w1) as [[e2|[]] w2]; cbn [fst snd] in *.
  { left. exists e2, w2. destruct (E2 e2 eq_refl) as [Hs He]. auto. }
  right. destruct (reset_directories_spec w2) as (w3 & H3 & T3 & _).
  exists w2, w3. split; [exact U2|]. split; [exact H3|]. rewrite H3.
  assert (H4 : tree (snd (P4 w3)) = tree w3 /\
               (forall e, fst (P4 w3) = inl e ->
                  skip_clear_notebook (args E) = false /\
                  (e = AttributeError \/ e = TypeError \/ e = LoadError))).
  { subst P4. destruct (skip_clear_notebook (args E)); cbn [negb].
    - split; [reflexivity | discriminate].
    - destruct (clear_notebook_frame w3) as (Ht & _ & _ & He). split; [exact Ht|].
      intros e H. split; [reflexivity | exact (He e H)]. }
  destruct H4 as [T4 E4].
  destruct (P4 w3) as [[e4|[]] w4]; cbn [fst snd] in *.
  - left. exists e4, w4. destruct (E4 e4 eq_refl) as [Hs He]. auto.
  - right. eexists. split; [reflexivity|]. exact T4.
Qed.

(** X25: a reset that fails while Kafka is restarted (a command fails or
    the broker does not come up) stops there: the data and output
    directories and the notebook are left as they were, and the exit status
    is 1. *)
Theorem failed_restart_leaves_local_files w e w' :
  main E w = (inl e, w') ->
  e = KafkaNotReady \/ (exists rc cmd, e = CommandFailed rc cmd) ->
  untouched w w' /\
  skip_kafka_restart (args E) = false /\
  fst (script E w) = 1.
Proof.
  intros Hrun He.
  assert (Hs : fst (script E w) = 1) by (unfold script; rewrite Hrun; reflexivity).
  destruct (main_cases w) as (w1 & U1 & [(e2 & w2 & H & U2 & Hk & _)|
    (w2 & w3 & _ & _ & [(e4 & w4 & H & _ & _ & He4)|(w4 & H & _)])]);
    rewrite Hrun in H; inversion H; subst.
  - split; [exact (untouched_trans _ _ _ U1 U2)|]. split; assumption.
  - exfalso. destruct He as [->|(rc & cmd & ->)];
      destruct He4 as [?|[?|?]]; discriminate.
Qed.


(** X27: with the Kafka restart and the notebook step skipped, the reset
    cannot fail, whatever [pkill] returns and whichever runtime file cannot
    be removed: it returns 0, leaves the notebook alone, and the only
    commands it runs are the five [pkill] calls (none with
    [--skip-kill-processes]). *)
Theorem local_reset_cannot_fail w :
  skip_kafka_restart (args E) = true ->
  skip_clear_notebook (args E) = true ->
  exists w',
    main E w = (inr 0, w') /\
    notebook w' = notebook w /\
    commands (log w') =
      commands (log w) ++
      (if skip_kill_processes (args E) then []
       else map (fun pattern => ["pkill"; "-f"; pattern])
                ["jupyter-notebook"; "jupyter-lab"; "ipykernel_launcher";
                 "spark-submit"; "org.apache.spark.deploy.SparkSubmit"]).
Proof.
  intros Hk Hn. unfold main. rewrite Hk, Hn. cbn [negb].
  set (P1 := if negb (skip_kill_processes (args E)) then kill_phase E else ret tt).
  assert (H1 : exists w1, P1 w = (inr tt, w1) /\ notebook w1 = notebook w /\
    commands (log w1) =
      commands (log w) ++
      (if skip_kill_processes (args E) then []
       else map (fun pattern => ["pkill"; "-f"; pattern])
                ["jupyter-notebook"; "jupyter-lab"; "ipykernel_launcher";
                 "spark-submit"; "org.apache.spark.deploy.SparkSubmit"])).
  { subst P1. destruct (skip_kill_processes (args E)); cbn [negb].
    - exists w. rewrite app_nil_r. repeat split.
    - destruct (kill_phase_spec w) as (w1 & Hrun & [_ Hu] & Hc). eauto. }
  destruct H1 as (w1 & H1 & N1 & C1). clearbody P1.
  unfold bind. rewrite H1, print_spec.
  match goal with |- context [reset_directories ?w0] =>
    destruct (reset_directories_spec w0) as (w3 & H3 & _ & N3 & C3); rewrite H3
  end.
  rewrite !print_spec. unfold ret. eexists. split; [reflexivity|].
  cbn [notebook log] in *. rewrite N3, N1. split; [reflexivity|].
  rewrite !commands_app, C3, commands_app, C1. simpl. rewrite !app_nil_r.
  reflexivity.
Qed.

End Facts.

Lemma sample_checks_fail kill notebook kafka down :
  all_fail (sample_env kill notebook kafka down) 2 down.
Proof.
  intros j Hj. cbn [returncode sample_env].
  replace (2 <=? 2 + j)%nat with true by (symmetry; apply Nat.leb_le; lia).
  replace (2 + j <? 2 + down)%nat with true by (symmetry; apply Nat.ltb_lt; lia).
  discriminate.
Qed.

Lemma wait_for_kafka_returns_at_first_success_witness :
  exists w',
    wait_for_kafka (sample_env false false true 3) 20 (3 # 2) (sample_world 2)
      = (inr tt, w') /\
    sleeps (log w') = repeat (3 # 2)%Q 3.
Proof.
  destruct (wait_for_kafka_returns_at_first_success
              (sample_env false false true 3) 20 (3 # 2) (sample_world 2) 3)
    as (w' & Hrun & _ & Hs & _).
  - apply sample_checks_fail.
  - reflexivity.
  - reflexivity.
  - exists w'. split; [exact Hrun | exact Hs].
Defined.

Lemma wait_for_kafka_gives_up_after_max_attempts_witness :
  exists w',
    wait_for_kafka (sample_env false false true 2) 2 (3 # 2) (sample_world 2)
      = (inl KafkaNotReady, w') /\
    commands (log w') = [CHECK_CMD; CHECK_CMD].
Proof.
  destruct (wait_for_kafka_gives_up_after_max_attempts
              (sample_env false false true 2) 2 (3 # 2) (sample_world 2))
    as (w' & Hrun & Hc & _).
  - apply sample_checks_fail.
  - exists w'. split; [exact Hrun | exact Hc].
Defined.


Lemma clearing_twice_writes_nothing_more_witness :
  exists w2,
    clear_notebook_outputs (snd (clear_notebook_outputs (sample_world 0)))
      = (inr tt, w2) /\
    writes (log w2) = writes (log (snd (clear_notebook_outputs (sample_world 0)))).
Proof.
  destruct (clearing_twice_writes_nothing_more (sample_world 0)
              (snd (clear_notebook_outputs (sample_world 0))))
    as (w2 & Hrun & _ & Hw & _).
  - reflexivity.
  - exists w2. split; [exact Hrun | exact Hw].
Defined.

Lemma failed_restart_leaves_local_files_witness :
  untouched (sample_world 0)
            (snd (main (sample_env false true true 20) (sample_world 0))) /\
  fst (script (sample_env false true true 20) (sample_world 0)) = 1.
Proof.
  destruct (failed_restart_leaves_local_files (sample_env false true true 20)
              (sample_world 0) KafkaNotReady
              (snd (main (sample_env false true true 20) (sample_world 0))))
    as (Hu & _ & Hs).
  - vm_compute. reflexivity.
  - left. reflexivity.
  - split; [exact Hu | exact Hs].
Defined.


Lemma local_reset_cannot_fail_witness :
  exists w',
    main (sample_env true false false 0) (sample_world 0) = (inr 0, w') /\
    length (commands (log w')) = 5%nat.
Proof.
  destruct (local_reset_cannot_fail (sample_env true false false 0)
              (sample_world 0)) as (w' & Hrun & _ & Hc).
  - reflexivity.
  - reflexivity.
  - exists w'. split; [exact Hrun|]. rewrite Hc. reflexivity.
Defined.

End ResetFacts.

(** * The producers and the tracker together *)

Module PipelineFacts.

Local Open Scope Q_scope.



End PipelineFacts.
